(** * Constraint formatting utilities of CVXPY

    A shallow embedding of [cvxpy/constraints/utilities.py]
    ([format_axis], [format_elemwise], [get_spacing_matrix]) and the
    properties of the layouts these functions build.

    Python integers are [Z]; tuples and lists are [list]; a raised
    exception is the left injection of [result]. Numeric entries of
    matrices are taken in [Z] with exact arithmetic: the selector
    matrices only hold 0 and 1, so the layouts depend on
    multiplication by 0 and 1 and on addition of 0 only. *)

From Stdlib Require Import ZArith QArith List Bool Lia FinFun.
Import ListNotations.
Local Open Scope Z_scope.

(** ** Exceptions and the error monad *)

(** [IndexError], [ValueError] and [OverflowError] are Python's;
    [ShapeMismatch] and [InvalidSpacing] are the two failures named by
    the error taxonomy of the design document. *)
Inductive error : Type :=
| IndexError
| ValueError
| OverflowError
| ShapeMismatch
| InvalidSpacing.

Definition result (A : Type) : Type := (error + A)%type.

Definition Ok {A : Type} (a : A) : result A := inr a.
Definition Err {A : Type} (e : error) : result A := inl e.

Definition bind {A B : Type} (c : result A) (f : A -> result B) : result B :=
  match c with
  | inl e => inl e
  | inr a => f a
  end.

Declare Scope result_scope.
Delimit Scope result_scope with result.
Notation "x <- c ;; k" := (bind c (fun x => k))
  (at level 61, c at next level, right associativity) : result_scope.
Local Open Scope result_scope.

(** ** Python built-ins *)

(** [range(n)] and [range(a, b)]. *)
Definition range (n : Z) : list Z := map Z.of_nat (seq 0 (Z.to_nat n)).
Definition range2 (a b : Z) : list Z := map (fun i => a + i) (range (b - a)).

(** [s[i]] on a tuple or list, for a non-negative index. *)
Definition getitem {A : Type} (s : list A) (i : Z) : result A :=
  if i <? 0 then Err IndexError
  else match nth_error s (Z.to_nat i) with
       | Some a => Ok a
       | None => Err IndexError
       end.

(** [n * [x]]. *)
Definition replicate {A : Type} (n : Z) (x : A) : list A := repeat x (Z.to_nat n).

(** Truth value of a tuple: [not s] holds for the empty tuple only. *)
Definition is_empty {A : Type} (s : list A) : bool :=
  match s with [] => true | _ => false end.

Definition Zlen {A : Type} (s : list A) : Z := Z.of_nat (length s).

(** ** Sparse matrices (scipy.sparse) *)

Inductive sp_format : Type := COO | CSC.

(** A sparse matrix keeps the three parallel arrays it was assembled
    from. Reading an entry sums the values stored at that position,
    which is what conversion to a compressed format does with repeated
    positions. *)
Record spmatrix : Type := mk_spmatrix {
  sp_format_of : sp_format;
  sp_shape : list Z;
  sp_data : list Z;
  sp_row : list Z;
  sp_col : list Z
}.

Definition all_in_range (l : list Z) (n : Z) : bool :=
  forallb (fun i => (0 <=? i) && (i <? n)) l.

(** The index type of a sparse matrix is chosen from its shape: 32-bit
    signed integers when the largest dimension fits them, 64-bit ones
    otherwise. [index_bound] is the exclusive upper bound of that type. *)
Definition index_bound (shape : list Z) : Z :=
  if fold_right Z.max 0 shape <? 2 ^ 31 then 2 ^ 31 else 2 ^ 63.

Definition fits (bound i : Z) : bool := (- bound <=? i) && (i <? bound).

(** [sp.coo_matrix((data, (row, col)), shape)]. The constructor rejects
    a shape that is not a pair of non-negative dimensions with
    [ValueError]; it converts the indices to the index type, which
    raises [OverflowError] for a Python integer that does not fit; and
    it rejects arrays of different lengths and any index outside the
    shape with [ValueError]. An index inside the shape fits the index
    type chosen from that shape, so the call returns exactly when the
    lengths agree and every index lies inside the shape. *)
Definition coo_matrix (data row col : list Z) (shape : list Z) : result spmatrix :=
  match shape with
  | [m; n] =>
      if negb ((0 <=? m) && (0 <=? n)) then Err ValueError
      else if (length row =? length data)%nat && (length col =? length data)%nat
              && all_in_range row m && all_in_range col n
      then Ok (mk_spmatrix COO shape data row col)
      else if forallb (fits (index_bound shape)) row
              && forallb (fits (index_bound shape)) col
      then Err ValueError
      else Err OverflowError
  | _ => Err ValueError
  end.

Definition tocsc (m : spmatrix) : spmatrix :=
  mk_spmatrix CSC (sp_shape m) (sp_data m) (sp_row m) (sp_col m).

(** The positions stored in a matrix, in assembly order. *)
Definition sp_positions (m : spmatrix) : list (Z * Z) :=
  combine (sp_row m) (sp_col m).

Definition sp_triplets (m : spmatrix) : list (Z * (Z * Z)) :=
  combine (sp_data m) (sp_positions m).

Definition sum_at (i j : Z) (ts : list (Z * (Z * Z))) : Z :=
  fold_right (fun t acc =>
                if (fst (snd t) =? i) && (snd (snd t) =? j) then fst t + acc else acc)
             0 ts.

(** Entry [(i, j)] of a sparse matrix. *)
Definition sp_get (m : spmatrix) (i j : Z) : Z := sum_at i j (sp_triplets m).

(** ** Dense values *)

(** An array: its shape and its entries in column-major order, the
    order in which CVXPY flattens matrices. *)
Record ndarray : Type := mk_ndarray {
  nd_shape : list Z;
  nd_data : list Z
}.

Definition nd_nth (a : ndarray) (p : Z) : Z := nth (Z.to_nat p) (nd_data a) 0.

(** Entry [(i, j)] of a two-dimensional array. *)
Definition nd_get (a : ndarray) (i j : Z) : Z :=
  match nd_shape a with
  | [m; _] => nd_nth a (j * m + i)
  | _ => 0
  end.

(** The [m] by [n] array with entry [f i j] at [(i, j)]. *)
Definition tabulate (m n : Z) (f : Z -> Z -> Z) : ndarray :=
  mk_ndarray [m; n] (map (fun p => f (p mod m) (p / m)) (range (m * n))).

Definition numel (shape : list Z) : Z := fold_right Z.mul 1 shape.

Definition Zsum (l : list Z) : Z := fold_right Z.add 0 l.

Definition list_eqb (a b : list Z) : bool :=
  if list_eq_dec Z.eq_dec a b then true else false.

Definition todense (m : spmatrix) : option ndarray :=
  match sp_shape m with
  | [r; c] => Some (tabulate r c (sp_get m))
  | _ => None
  end.

Definition nd_matmul (a b : ndarray) : option ndarray :=
  match nd_shape a, nd_shape b with
  | [p; q], [q'; n] =>
      if q =? q'
      then Some (tabulate p n (fun i j =>
                   Zsum (map (fun k => nd_get a i k * nd_get b k j) (range q))))
      else None
  | [p; q], [q'] =>
      if q =? q'
      then Some (mk_ndarray [p]
                   (map (fun i => Zsum (map (fun k => nd_get a i k * nd_nth b k) (range q)))
                        (range p)))
      else None
  | _, _ => None
  end.

Fixpoint zip_add (x y : list Z) : list Z :=
  match x, y with
  | a :: x', b :: y' => (a + b) :: zip_add x' y'
  | _, _ => []
  end.

Definition nd_add (a b : ndarray) : option ndarray :=
  if list_eqb (nd_shape a) (nd_shape b)
  then Some (mk_ndarray (nd_shape a) (zip_add (nd_data a) (nd_data b)))
  else None.

Definition nd_reshape (a : ndarray) (shape : list Z) : option ndarray :=
  if numel (nd_shape a) =? numel shape
  then Some (mk_ndarray shape (nd_data a))
  else None.

Definition nd_transpose (a : ndarray) : option ndarray :=
  match nd_shape a with
  | [m; n] => Some (tabulate n m (fun i j => nd_get a j i))
  | [] | [_] => Some a
  | _ => None
  end.

(** ** Linear operators (cvxpy.lin_ops) *)

(** Modelled from the spec: the LinOp node type of [cvxpy.lin_ops], which
    is not part of this module. A node is tagged by its kind and carries
    its shape; constants carry their data. *)
#[local] Set Warnings "-register-all".
Inductive LinOp : Type :=
| Var (id : Z) (shape : list Z)
| Constant (data : ndarray) (shape : list Z)
| SparseConstant (data : spmatrix) (shape : list Z)
| Multiply (lh_op rh_op : LinOp) (shape : list Z)
| Sum (operators : list LinOp) (shape : list Z)
| Reshape (operator : LinOp) (shape : list Z)
| Transpose (operator : LinOp) (shape : list Z).

Definition shape (op : LinOp) : list Z :=
  match op with
  | Var _ s | Constant _ s | SparseConstant _ s | Multiply _ _ s
  | Sum _ s | Reshape _ s | Transpose _ s => s
  end.

(** Modelled from the spec: a constraint [expr >= 0] over a LinOp, made
    by the create-inequality factory of [lin_utils]. *)
Record Constraint : Type := Geq { constr_expr : LinOp }.

Module lu.

(** Modelled from the spec: [lin_utils.transpose]. It never fails; the
    axes are reversed, so a (rows, columns) shape is swapped. *)
Definition transpose (operator : LinOp) : LinOp :=
  Transpose operator (rev (shape operator)).

(** Modelled from the spec: [lin_utils.reshape]; shapes that do not
    hold the same number of entries are a [ShapeMismatch]. *)
Definition reshape (operator : LinOp) (new_shape : list Z) : result LinOp :=
  if numel (shape operator) =? numel new_shape
  then Ok (Reshape operator new_shape)
  else Err ShapeMismatch.

(** Modelled from the spec: [lin_utils.mul_expr]; the product of a
    (p, q) operator with a (q, n) operator has shape (p, n), with a
    (q,) operator shape (p,), and anything else is a [ShapeMismatch]. *)
Definition mul_expr (lh_op rh_op : LinOp) : result LinOp :=
  match shape lh_op, shape rh_op with
  | [p; q], [q'; n] =>
      if q =? q' then Ok (Multiply lh_op rh_op [p; n]) else Err ShapeMismatch
  | [p; q], [q'] =>
      if q =? q' then Ok (Multiply lh_op rh_op [p]) else Err ShapeMismatch
  | _, _ => Err ShapeMismatch
  end.

(** Modelled from the spec: [lin_utils.sum_expr]; the operands must
    all have the shape of the first one, else [ShapeMismatch]. *)
Definition sum_expr (operators : list LinOp) : result LinOp :=
  first <- getitem operators 0 ;;
  if forallb (fun op => list_eqb (shape op) (shape first)) operators
  then Ok (Sum operators (shape first))
  else Err ShapeMismatch.

(** Modelled from the spec: [lin_utils.create_const(value, shape,
    sparse=True)], the only form this module calls. *)
Definition create_const (value : spmatrix) (const_shape : list Z) : LinOp :=
  SparseConstant value const_shape.

(** Modelled from the spec: [lin_utils.create_geq] with one operand. *)
Definition create_geq (lh_op : LinOp) : Constraint := Geq lh_op.

End lu.

(** ** Evaluation of linear operators *)

Definition obind {A B : Type} (c : option A) (f : A -> option B) : option B :=
  match c with
  | Some a => f a
  | None => None
  end.

Definition with_shape (s : list Z) (a : ndarray) : option ndarray :=
  if list_eqb (nd_shape a) s then Some a else None.

Fixpoint nd_sum (l : list ndarray) : option ndarray :=
  match l with
  | [] => None
  | [a] => Some a
  | a :: l' => obind (nd_sum l') (fun b => nd_add a b)
  end.

(** Modelled from the spec: the value an operator denotes once its
    variables are given values ([env]); each node must have the shape it
    is annotated with. *)
Fixpoint eval (env : Z -> option ndarray) (op : LinOp) : option ndarray :=
  match op with
  | Var id s => obind (env id) (with_shape s)
  | Constant a s => with_shape s a
  | SparseConstant m s => obind (todense m) (with_shape s)
  | Multiply l r s =>
      obind (eval env l) (fun a =>
      obind (eval env r) (fun b =>
      obind (nd_matmul a b) (with_shape s)))
  | Sum ops s =>
      obind ((fix eval_all (l : list LinOp) : option (list ndarray) :=
                match l with
                | [] => Some []
                | x :: l' =>
                    obind (eval env x) (fun a =>
                    obind (eval_all l') (fun r => Some (a :: r)))
                end) ops)
            (fun vals => obind (nd_sum vals) (with_shape s))
  | Reshape x s => obind (eval env x) (fun a => nd_reshape a s)
  | Transpose x s => obind (eval env x) (fun a => obind (nd_transpose a) (with_shape s))
  end.

Fixpoint eval_all (env : Z -> option ndarray) (l : list LinOp) : option (list ndarray) :=
  match l with
  | [] => Some []
  | x :: l' =>
      obind (eval env x) (fun a =>
      obind (eval_all env l') (fun r => Some (a :: r)))
  end.

(** ** The module [cvxpy/constraints/utilities.py] *)

(** The three arrays filled by the loop of [get_spacing_matrix]
    (lines 112-119), one append to each per iteration. *)
Definition spacing_arrays (cols spacing offset : Z) : list Z * list Z * list Z :=
  fold_left
    (fun '(val_arr, row_arr, col_arr) var_row =>
       (val_arr ++ [1], row_arr ++ [spacing * var_row + offset], col_arr ++ [var_row]))
    (range cols) ([], [], []).

Definition get_spacing_matrix (shape : list Z) (spacing offset : Z) : result LinOp :=
  cols <- getitem shape 1 ;;
  let '(val_arr, row_arr, col_arr) := spacing_arrays cols spacing offset in
  mat <- coo_matrix val_arr row_arr col_arr shape ;;
  Ok (lu.create_const (tocsc mat) shape).

(** *** Stride and offset that are not integers

    Python does not fix the type of [spacing] and [offset]. A number is
    an [int] or a [float]; a float is taken as the rational it denotes,
    with exact arithmetic. *)
Inductive number : Type :=
| PyInt (z : Z)
| PyFloat (q : Q).

Definition to_float (x : number) : Q :=
  match x with
  | PyInt z => inject_Z z
  | PyFloat q => q
  end.

(** [x * y] and [x + y]: an [int] when both operands are, a [float]
    otherwise. *)
Definition num_mul (x y : number) : number :=
  match x, y with
  | PyInt a, PyInt b => PyInt (a * b)
  | _, _ => PyFloat (Qmult (to_float x) (to_float y))
  end.

Definition num_add (x y : number) : number :=
  match x, y with
  | PyInt a, PyInt b => PyInt (a + b)
  | _, _ => PyFloat (Qplus (to_float x) (to_float y))
  end.

(** Truncation toward zero. *)
Definition truncate (q : Q) : Z := Z.quot (Qnum q) (Zpos (Qden q)).

(** Conversion of an index to the index type of bound [bound]. An [int]
    is kept (whether it fits is checked by the constructor); a [float]
    is truncated toward zero without any error, and one beyond the index
    type converts to the most negative index. *)
Definition to_index (bound : Z) (x : number) : Z :=
  match x with
  | PyInt z => z
  | PyFloat q => if fits bound (truncate q) then truncate q else - bound
  end.

(** [sp.coo_matrix] on row indices that may be floats. *)
Definition coo_matrix_num (data : list Z) (row : list number) (col : list Z)
           (shape : list Z) : result spmatrix :=
  coo_matrix data (map (to_index (index_bound shape)) row) col shape.

Definition spacing_arrays_num (cols : Z) (spacing offset : number)
  : list Z * list number * list Z :=
  fold_left
    (fun '(val_arr, row_arr, col_arr) var_row =>
       (val_arr ++ [1],
        row_arr ++ [num_add (num_mul spacing (PyInt var_row)) offset],
        col_arr ++ [var_row]))
    (range cols) ([], [], []).

(** [get_spacing_matrix] (lines 95-121) with [spacing] and [offset] of
    either numeric type. *)
Definition get_spacing_matrix_num (shape : list Z) (spacing offset : number)
  : result LinOp :=
  cols <- getitem shape 1 ;;
  let '(val_arr, row_arr, col_arr) := spacing_arrays_num cols spacing offset in
  mat <- coo_matrix_num val_arr row_arr col_arr shape ;;
  Ok (lu.create_const (tocsc mat) shape).

(** The loop of [format_elemwise] (lines 89-91): [i] counts the
    iterations as [enumerate] does, [terms] is the list appended to. *)
Fixpoint elemwise_terms (mat_shape : list Z) (spacing i : Z)
         (vars_ : list LinOp) (terms : list LinOp) : result (list LinOp) :=
  match vars_ with
  | [] => Ok terms
  | var :: rest =>
      mat <- get_spacing_matrix mat_shape spacing i ;;
      term <- lu.mul_expr mat var ;;
      elemwise_terms mat_shape spacing (i + 1) rest (terms ++ [term])
  end.

Definition format_elemwise (vars_ : list LinOp) : result (list Constraint) :=
  let spacing := Zlen vars_ in
  var0 <- getitem vars_ 0 ;;
  rows0 <- getitem (shape var0) 0 ;;
  let mat_shape := [spacing * rows0; rows0] in
  terms <- elemwise_terms mat_shape spacing 0 vars_ [] ;;
  total <- lu.sum_expr terms ;;
  Ok [lu.create_geq total].

(** The leader reshaped to a row (lines 51-57 of [format_axis]). *)
Definition leader_row (t : LinOp) : result LinOp :=
  if is_empty (shape t)
  then lu.reshape t [1; 1]
  else (len <- getitem (shape t) 0 ;; lu.reshape t [1; len]).

Definition format_axis (t X : LinOp) (axis : Z) : result (list Constraint) :=
  let X := if axis =? 1 then lu.transpose X else X in
  x_rows <- getitem (shape X) 0 ;;
  let cone_size := 1 + x_rows in
  let terms := [] in
  let mat_shape := [cone_size; 1] in
  t_mat <- coo_matrix [1] [0] [0] mat_shape ;;
  let t_mat := lu.create_const (tocsc t_mat) mat_shape in
  t_vec <- leader_row t ;;
  term <- lu.mul_expr t_mat t_vec ;;
  let terms := terms ++ [term] in
  let mat_shape := [cone_size; x_rows] in
  let val_arr := replicate (cone_size - 1) 1 in
  let row_arr := range2 1 cone_size in
  let col_arr := range (cone_size - 1) in
  X_mat <- coo_matrix val_arr row_arr col_arr mat_shape ;;
  let X_mat := lu.create_const (tocsc X_mat) mat_shape in
  term <- lu.mul_expr X_mat X ;;
  let terms := terms ++ [term] in
  total <- lu.sum_expr terms ;;
  Ok [lu.create_geq total].

(** ** Environments and evaluation of results *)

Definition env_of (l : list (Z * ndarray)) (id : Z) : option ndarray :=
  match find (fun p => fst p =? id) l with
  | Some p => Some (snd p)
  | None => None
  end.

Definition eval_constraints (env : Z -> option ndarray) (r : result (list Constraint))
  : result (list (option ndarray)) :=
  cs <- r ;; Ok (map (fun c => eval env (constr_expr c)) cs).

(** ** Closed forms used in the proofs *)

(** The matrix assembled from the arrays of [spacing_arrays]. *)
Definition spacing_csc (shape : list Z) (cols spacing offset : Z) : spmatrix :=
  mk_spmatrix CSC shape
    (map (fun _ => 1) (range cols))
    (map (fun c => spacing * c + offset) (range cols))
    (range cols).

(** Triplets of value 1 at the positions [(f c, c)] for [c] in [l]. *)
Definition selector_triplets (f : Z -> Z) (l : list Z) : list (Z * (Z * Z)) :=
  combine (map (fun _ => 1) l) (combine (map f l) l).

(** ** Worked examples of the design document *)

(** Two columns [1, 2] and [10, 20] for [format_elemwise]. *)
Definition elemwise_env : Z -> option ndarray :=
  env_of [(0, mk_ndarray [2; 1] [1; 2]); (1, mk_ndarray [2; 1] [10; 20])].
Definition elemwise_vars : list LinOp := [Var 0 [2; 1]; Var 1 [2; 1]].

(** Leader [5, 6] and the matrix with columns [1, 2] and [3, 4] for
    [format_axis]. *)
Definition axis_env : Z -> option ndarray :=
  env_of [(0, mk_ndarray [2] [5; 6]); (1, mk_ndarray [2; 2] [1; 2; 3; 4])].
Definition axis_t : LinOp := Var 0 [2].
Definition axis_X : LinOp := Var 1 [2; 2].

(** The two selector matrices [format_axis] builds for a cone of
    [cone_size] rows: [t_mat] (line 49) and [X_mat] (lines 61-64), after
    conversion to CSC. *)
Definition leader_csc (cone_size : Z) : spmatrix :=
  mk_spmatrix CSC [cone_size; 1] [1] [0] [0].

Definition shift_csc (cone_size x_rows : Z) : spmatrix :=
  mk_spmatrix CSC [cone_size; x_rows]
    (replicate (cone_size - 1) 1) (range2 1 cone_size) (range (cone_size - 1)).

(** The shape [lu.mul_expr] gives the product of operators of shapes
    [l] and [r], when it accepts them. *)
Definition mul_shape (l r : list Z) : option (list Z) :=
  match l, r with
  | [p; q], [q'; n] => if q =? q' then Some [p; n] else None
  | [p; q], [q'] => if q =? q' then Some [p] else None
  | _, _ => None
  end.

(** ** Ranges, indexing and sums *)

Lemma In_range (n x : Z) : In x (range n) <-> 0 <= x < n.
Proof.
  unfold range. rewrite in_map_iff. split.
  - intros [k [<- Hk]]. apply in_seq in Hk. lia.
  - intros H. exists (Z.to_nat x). split; [lia | apply in_seq; lia].
Qed.

Lemma NoDup_range (n : Z) : NoDup (range n).
Proof.
  unfold range. apply Injective_map_NoDup.
  - intros a b. apply Nat2Z.inj.
  - apply seq_NoDup.
Qed.

Lemma length_range (n : Z) : length (range n) = Z.to_nat n.
Proof. unfold range. now rewrite length_map, length_seq. Qed.

Lemma nth_range (n p d : Z) : 0 <= p < n -> nth (Z.to_nat p) (range n) d = p.
Proof.
  intros H. unfold range.
  rewrite (nth_indep _ d (Z.of_nat 0)) by (rewrite length_map, length_seq; lia).
  rewrite map_nth, seq_nth by lia. lia.
Qed.

Lemma nth_map_range (g : Z -> Z) (n p : Z) :
  0 <= p < n -> nth (Z.to_nat p) (map g (range n)) 0 = g p.
Proof.
  intros H.
  rewrite (nth_indep _ 0 (g 0)) by (rewrite length_map, length_range; lia).
  rewrite map_nth. now rewrite nth_range.
Qed.

Lemma range_succ (n : Z) : 0 <= n -> range (n + 1) = range n ++ [n].
Proof.
  intros H. unfold range.
  replace (Z.to_nat (n + 1)) with (Z.to_nat n + 1)%nat by lia.
  rewrite seq_app, map_app. simpl. now rewrite Z2Nat.id.
Qed.

Lemma range_nonpos (n : Z) : n <= 0 -> range n = [].
Proof. intros H. unfold range. now replace (Z.to_nat n) with 0%nat by lia. Qed.

Lemma getitem_nth {A : Type} (s : list A) (i : Z) (a : A) :
  0 <= i -> nth_error s (Z.to_nat i) = Some a -> getitem s i = Ok a.
Proof.
  intros Hi E. unfold getitem.
  destruct (Z.ltb_spec i 0); [lia | now rewrite E].
Qed.

Lemma list_eqb_refl (s : list Z) : list_eqb s s = true.
Proof. unfold list_eqb. now destruct (list_eq_dec Z.eq_dec s s). Qed.

Lemma list_eqb_eq (a b : list Z) : list_eqb a b = true <-> a = b.
Proof. unfold list_eqb. destruct (list_eq_dec Z.eq_dec a b); split; congruence. Qed.

Lemma all_in_range_spec (l : list Z) (n : Z) :
  all_in_range l n = true <-> forall x, In x l -> 0 <= x < n.
Proof.
  unfold all_in_range. rewrite forallb_forall.
  split; intros H x Hx; specialize (H x Hx).
  - apply andb_true_iff in H. lia.
  - apply andb_true_iff. split; [apply Z.leb_le | apply Z.ltb_lt]; lia.
Qed.

(** A sum with at most one non-zero term. *)
Lemma Zsum_single (h : Z -> Z) (l : list Z) (k0 : Z) :
  NoDup l -> In k0 l -> (forall k, In k l -> k <> k0 -> h k = 0) ->
  Zsum (map h l) = h k0.
Proof.
  induction l as [|a l IH]; intros Hnd Hin Hz; [easy|].
  inversion Hnd as [|? ? Hna Hnd']; subst. simpl.
  assert (Hall : forall l', (forall k, In k l' -> h k = 0) -> Zsum (map h l') = 0).
  { induction l' as [|b l' IHl']; intros Hb; [reflexivity|].
    simpl. rewrite (Hb b) by now left. rewrite IHl'; [reflexivity|].
    intros k Hk. apply Hb. now right. }
  destruct Hin as [->|Hin].
  - rewrite Hall; [lia|]. intros k Hk. apply Hz; [now right|]. intros ->. contradiction.
  - rewrite IH; auto.
    + rewrite (Hz a); [lia | now left | intros ->; contradiction].
    + intros k Hk Hne. apply Hz; [now right | assumption].
Qed.

Lemma Zsum_zero (h : Z -> Z) (l : list Z) :
  (forall k, In k l -> h k = 0) -> Zsum (map h l) = 0.
Proof.
  induction l as [|b l IH]; intros Hb; [reflexivity|].
  simpl. rewrite (Hb b) by now left. rewrite IH; [reflexivity|].
  intros k Hk. apply Hb. now right.
Qed.

(** ** Dense arrays *)

Lemma length_tabulate (m n : Z) (f : Z -> Z -> Z) :
  length (nd_data (tabulate m n f)) = Z.to_nat (m * n).
Proof. unfold tabulate. simpl. now rewrite length_map, length_range. Qed.

Lemma nd_nth_tabulate (m n : Z) (f : Z -> Z -> Z) (p : Z) :
  0 <= p < m * n -> nd_nth (tabulate m n f) p = f (p mod m) (p / m).
Proof.
  intros H. unfold nd_nth, tabulate. simpl.
  now rewrite (nth_map_range (fun q => f (q mod m) (q / m))).
Qed.

Lemma nd_get_tabulate (m n : Z) (f : Z -> Z -> Z) (i j : Z) :
  0 <= i < m -> 0 <= j < n -> nd_get (tabulate m n f) i j = f i j.
Proof.
  intros Hi Hj.
  change (nd_get (tabulate m n f) i j) with (nd_nth (tabulate m n f) (j * m + i)).
  rewrite nd_nth_tabulate by nia.
  f_equal.
  - rewrite Z.add_comm, Z.mod_add by lia. apply Z.mod_small; lia.
  - rewrite Z.add_comm, Z.div_add by lia. rewrite Z.div_small by lia. lia.
Qed.

(** ** The spacing matrix *)

Lemma spacing_arrays_eq (cols spacing offset : Z) :
  spacing_arrays cols spacing offset =
  (map (fun _ => 1) (range cols),
   map (fun c => spacing * c + offset) (range cols),
   range cols).
Proof.
  unfold spacing_arrays.
  assert (G : forall l va ra ca,
    fold_left
      (fun '(val_arr, row_arr, col_arr) var_row =>
         (val_arr ++ [1], row_arr ++ [spacing * var_row + offset], col_arr ++ [var_row]))
      l (va, ra, ca)
    = (va ++ map (fun _ => 1) l, ra ++ map (fun c => spacing * c + offset) l, ca ++ l)).
  { induction l as [|x l IH]; intros va ra ca; simpl.
    - now rewrite !app_nil_r.
    - rewrite IH, <- !app_assoc. reflexivity. }
  apply G.
Qed.

Lemma coo_matrix_ok (data row col : list Z) (m n : Z) :
  0 <= m -> 0 <= n ->
  length row = length data -> length col = length data ->
  all_in_range row m = true -> all_in_range col n = true ->
  coo_matrix data row col [m; n] = Ok (mk_spmatrix COO [m; n] data row col).
Proof.
  intros Hm Hn Lr Lc Rr Rc. unfold coo_matrix.
  replace ((0 <=? m) && (0 <=? n)) with true
    by (symmetry; apply andb_true_iff; split; apply Z.leb_le; lia).
  rewrite Lr, Lc, Nat.eqb_refl, Rr, Rc. reflexivity.
Qed.

Lemma get_spacing_matrix_ok (rows cols spacing offset : Z) :
  0 <= rows -> 0 <= cols ->
  (forall c, 0 <= c < cols -> 0 <= spacing * c + offset < rows) ->
  get_spacing_matrix [rows; cols] spacing offset =
  Ok (SparseConstant (spacing_csc [rows; cols] cols spacing offset) [rows; cols]).
Proof.
  intros Hr Hc Hin. unfold get_spacing_matrix.
  rewrite (getitem_nth [rows; cols] 1 cols) by (reflexivity || lia).
  cbn [bind Ok]. rewrite spacing_arrays_eq.
  rewrite coo_matrix_ok; [reflexivity | assumption | assumption | | | |].
  - now rewrite !length_map.
  - now rewrite length_map.
  - apply all_in_range_spec. intros x Hx. apply in_map_iff in Hx.
    destruct Hx as [c [<- Hc']]. apply Hin. now apply In_range.
  - apply all_in_range_spec. intros x Hx. now apply In_range.
Qed.

Lemma sum_at_absent (f : Z -> Z) (l : list Z) (i j : Z) :
  ~ In j l -> sum_at i j (selector_triplets f l) = 0.
Proof.
  induction l as [|a l IH]; intros Hn; [reflexivity|].
  unfold selector_triplets in *. simpl in *.
  destruct (Z.eqb_spec a j) as [->|Hne]; [tauto|].
  rewrite andb_false_r. apply IH. tauto.
Qed.

Lemma sum_at_present (f : Z -> Z) (l : list Z) (i j : Z) :
  NoDup l -> In j l ->
  sum_at i j (selector_triplets f l) = if i =? f j then 1 else 0.
Proof.
  induction l as [|a l IH]; intros Hnd Hin; [easy|].
  inversion Hnd as [|? ? Hna Hnd']; subst.
  unfold selector_triplets in *. simpl.
  destruct (Z.eqb_spec a j) as [->|Hne].
  - rewrite andb_true_r.
    pose proof (sum_at_absent f l i j Hna) as Z0. unfold selector_triplets in Z0.
    rewrite Z0. rewrite (Z.eqb_sym (f j) i). now destruct (i =? f j).
  - rewrite andb_false_r. apply IH; [assumption|].
    destruct Hin; [contradiction | assumption].
Qed.

Lemma sp_get_spacing_csc (s : list Z) (cols spacing offset i j : Z) :
  sp_get (spacing_csc s cols spacing offset) i j =
  if (0 <=? j) && (j <? cols) && (i =? spacing * j + offset) then 1 else 0.
Proof.
  unfold sp_get, sp_triplets, sp_positions, spacing_csc. cbn [sp_data sp_row sp_col].
  change (sum_at i j (selector_triplets (fun c => spacing * c + offset) (range cols)) =
          if (0 <=? j) && (j <? cols) && (i =? spacing * j + offset) then 1 else 0).
  destruct (Z.leb_spec 0 j); destruct (Z.ltb_spec j cols); cbn [andb];
    try (apply sum_at_absent; rewrite In_range; lia).
  apply (sum_at_present (fun c => spacing * c + offset));
    [apply NoDup_range | apply In_range; lia].
Qed.

(** ** Failures of the library calls *)

Lemma getitem_error {A : Type} (s : list A) (i : Z) (e : error) :
  getitem s i = Err e -> e = IndexError.
Proof.
  unfold getitem. destruct (i <? 0); [intros H; now inversion H|].
  destruct (nth_error s (Z.to_nat i)); intros H; now inversion H.
Qed.

Lemma coo_matrix_error (data row col s : list Z) (e : error) :
  coo_matrix data row col s = Err e -> e = ValueError \/ e = OverflowError.
Proof.
  unfold coo_matrix.
  destruct s as [|m [|n [|? ?]]]; try (intros H; inversion H; now left).
  repeat match goal with
         | |- context [if ?b then _ else _] => destruct b
         end; intros H; inversion H; auto.
Qed.

Lemma coo_matrix_inv (data row col s : list Z) (m : spmatrix) :
  coo_matrix data row col s = Ok m -> m = mk_spmatrix COO s data row col.
Proof.
  unfold coo_matrix.
  destruct s as [|r [|c [|? ?]]]; try (intros H; now inversion H).
  repeat match goal with
         | |- context [if ?b then _ else _] => destruct b
         end; intros H; now inversion H.
Qed.

Lemma coo_matrix_accepts (data row col : list Z) (m n : Z) (x : spmatrix) :
  coo_matrix data row col [m; n] = Ok x ->
  all_in_range row m = true /\ all_in_range col n = true.
Proof.
  unfold coo_matrix.
  destruct (negb ((0 <=? m) && (0 <=? n))); [discriminate|].
  destruct (all_in_range row m); destruct (all_in_range col n);
    rewrite ?andb_true_r, ?andb_false_r; try (split; reflexivity);
    destruct (forallb _ row && forallb _ col); discriminate.
Qed.

(** Which error a rejected index gives. *)
Lemma coo_matrix_out_of_range (data row col : list Z) (m n : Z) :
  0 <= m -> 0 <= n -> all_in_range row m = false ->
  coo_matrix data row col [m; n] =
  if forallb (fits (index_bound [m; n])) row && forallb (fits (index_bound [m; n])) col
  then Err ValueError else Err OverflowError.
Proof.
  intros Hm Hn Hr. unfold coo_matrix.
  replace ((0 <=? m) && (0 <=? n)) with true
    by (symmetry; apply andb_true_iff; split; apply Z.leb_le; lia).
  rewrite Hr. cbn [negb]. now rewrite andb_false_r.
Qed.

Lemma index_bound_cases (s : list Z) : index_bound s = 2 ^ 31 \/ index_bound s = 2 ^ 63.
Proof. unfold index_bound. destruct (_ <? _); auto. Qed.

Lemma forallb_fits (b : Z) (l : list Z) :
  (forall x, In x l -> - b <= x < b) -> forallb (fits b) l = true.
Proof.
  intros H. apply forallb_forall. intros x Hx. specialize (H x Hx).
  unfold fits. apply andb_true_iff. split; [apply Z.leb_le | apply Z.ltb_lt]; lia.
Qed.

Lemma get_spacing_matrix_inv (s : list Z) (spacing offset : Z) (op : LinOp) :
  get_spacing_matrix s spacing offset = Ok op ->
  exists cols, getitem s 1 = Ok cols /\
               op = SparseConstant (spacing_csc s cols spacing offset) s.
Proof.
  unfold get_spacing_matrix. destruct (getitem s 1) as [e|cols]; [discriminate|].
  cbn [bind]. rewrite spacing_arrays_eq.
  destruct (coo_matrix _ _ _ s) as [e|m] eqn:E; [discriminate|].
  apply coo_matrix_inv in E. subst m. cbn [bind]. intros H. inversion H.
  exists cols. split; reflexivity.
Qed.

Lemma NoDup_combine_r {A B : Type} (l1 : list A) (l2 : list B) :
  NoDup l2 -> NoDup (combine l1 l2).
Proof.
  revert l1. induction l2 as [|b l2 IH]; intros l1 Hnd.
  - destruct l1; constructor.
  - destruct l1 as [|a l1]; [constructor|].
    inversion Hnd as [|? ? Hn Hnd']; subst. simpl. constructor.
    + intros Hin. apply in_combine_r in Hin. contradiction.
    + now apply IH.
Qed.

(** ** Properties of [get_spacing_matrix] *)

(** C3: for k >= 1 and 0 <= offset < spacing, the call
    [get_spacing_matrix((spacing*k, k), spacing, offset)] returns a
    sparse constant of shape (spacing*k, k) holding k stored entries;
    every position (spacing*c + offset, c) lies inside the matrix, the
    entry there is 1 and every other entry is 0. *)
Theorem get_spacing_matrix_selector (k spacing offset : Z) :
  1 <= k -> 0 <= offset < spacing ->
  exists m,
    get_spacing_matrix [spacing * k; k] spacing offset
      = Ok (SparseConstant m [spacing * k; k]) /\
    sp_shape m = [spacing * k; k] /\
    Zlen (sp_data m) = k /\
    (forall c, 0 <= c < k -> 0 <= spacing * c + offset < spacing * k) /\
    (forall i j, 0 <= i < spacing * k -> 0 <= j < k ->
       sp_get m i j = if i =? spacing * j + offset then 1 else 0).
Proof.
  intros Hk Ho.
  assert (Hin : forall c, 0 <= c < k -> 0 <= spacing * c + offset < spacing * k)
    by (intros c Hc; nia).
  exists (spacing_csc [spacing * k; k] k spacing offset).
  split; [apply get_spacing_matrix_ok; (nia || assumption)|].
  split; [reflexivity|].
  split; [unfold Zlen, spacing_csc; cbn [sp_data]; rewrite length_map, length_range; lia|].
  split; [assumption|].
  intros i j Hi Hj. rewrite sp_get_spacing_csc.
  destruct (Z.leb_spec 0 j); [|lia]. destruct (Z.ltb_spec j k); [|lia]. reflexivity.
Qed.

Lemma get_spacing_matrix_selector_witness :
  exists m,
    get_spacing_matrix [2 * 3; 3] 2 1 = Ok (SparseConstant m [2 * 3; 3]) /\
    sp_shape m = [2 * 3; 3] /\
    Zlen (sp_data m) = 3 /\
    (forall c, 0 <= c < 3 -> 0 <= 2 * c + 1 < 2 * 3) /\
    (forall i j, 0 <= i < 2 * 3 -> 0 <= j < 3 ->
       sp_get m i j = if i =? 2 * j + 1 then 1 else 0).
Proof. apply (get_spacing_matrix_selector 3 2 1); lia. Defined.

(** ** Degenerate and axis arguments *)

(** C9: on the empty sequence [vars_[0]] raises [IndexError], and this
    is the outcome of [format_elemwise]: it fails before the loop that
    builds the spacing matrices and returns no constraint list. *)
Theorem format_elemwise_empty :
  getitem (@nil LinOp) 0 = Err IndexError /\
  format_elemwise [] = Err IndexError.
Proof. split; reflexivity. Qed.

(** C10: every axis value other than 1 gives the result of axis 0; no
    axis value is rejected on its own account. *)
Theorem format_axis_axis_not_1 (t X : LinOp) (axis : Z) :
  axis <> 1 -> format_axis t X axis = format_axis t X 0.
Proof.
  intros H. unfold format_axis.
  destruct (Z.eqb_spec axis 1) as [->|_]; [contradiction | reflexivity].
Qed.

Lemma format_axis_axis_not_1_witness :
  format_axis (Var 0 [2]) (Var 1 [2; 2]) 7 = format_axis (Var 0 [2]) (Var 1 [2; 2]) 0.
Proof. apply format_axis_axis_not_1. lia. Defined.

(** C4: with axis 1 the result is that of axis 0 on the transpose of X. *)
Theorem format_axis_axis_1_transpose (t X : LinOp) :
  format_axis t X 1 = format_axis t (lu.transpose X) 0.
Proof. reflexivity. Qed.

(** ** Evaluation lemmas *)

Lemma eval_Sum (env : Z -> option ndarray) (ops : list LinOp) (s : list Z) :
  eval env (Sum ops s) =
  obind (eval_all env ops) (fun vals => obind (nd_sum vals) (with_shape s)).
Proof.
  cbn [eval]. f_equal.
  induction ops as [|x l IH]; [reflexivity|].
  cbn [eval_all]. now rewrite <- IH.
Qed.

Lemma eval_shape (env : Z -> option ndarray) (op : LinOp) (v : ndarray) :
  eval env op = Some v -> nd_shape v = shape op.
Proof.
  assert (W : forall s a b, with_shape s a = Some b -> nd_shape b = s).
  { intros s a b. unfold with_shape.
    destruct (list_eqb (nd_shape a) s) eqn:E; [|discriminate].
    intros H. inversion H. subst. now apply list_eqb_eq. }
  destruct op; cbn [shape]; try rewrite eval_Sum; cbn [eval]; unfold obind; intros H;
    repeat match type of H with
           | match ?c with Some _ => _ | None => _ end = Some _ =>
               destruct c; [|discriminate]
           end;
    try (eapply W; eassumption).
  unfold nd_reshape in H. destruct (_ =? _); [|discriminate].
  now inversion H.
Qed.

Lemma with_shape_same (s : list Z) (a : ndarray) :
  nd_shape a = s -> with_shape s a = Some a.
Proof. intros <-. unfold with_shape. now rewrite list_eqb_refl. Qed.

(** The product of a sparse constant with an operator. *)
Lemma eval_mul_sparse (env : Z -> option ndarray) (S : spmatrix) (e : LinOp)
      (v : ndarray) (m q n : Z) :
  sp_shape S = [m; q] -> eval env e = Some v -> nd_shape v = [q; n] ->
  eval env (Multiply (SparseConstant S [m; q]) e [m; n]) =
  Some (tabulate m n (fun i j =>
          Zsum (map (fun k => nd_get (tabulate m q (sp_get S)) i k * nd_get v k j)
                    (range q)))).
Proof.
  intros HS He Hv. cbn [eval]. unfold todense. rewrite HS. cbn [obind].
  rewrite with_shape_same by reflexivity. cbn [obind]. rewrite He. cbn [obind].
  unfold nd_matmul. cbn [tabulate nd_shape]. rewrite Hv, Z.eqb_refl. cbn [obind].
  now rewrite with_shape_same.
Qed.

Lemma length_zip_add (x y : list Z) :
  length x = length y -> length (zip_add x y) = length x.
Proof.
  revert y. induction x as [|a x IH]; intros [|b y] H; simpl in *; try congruence.
  f_equal. apply IH. congruence.
Qed.

Lemma nth_zip_add (x y : list Z) (p : nat) :
  length x = length y -> nth p (zip_add x y) 0 = nth p x 0 + nth p y 0.
Proof.
  revert y p. induction x as [|a x IH]; intros [|b y] p H; simpl in *; try congruence.
  - now destruct p.
  - destruct p; [reflexivity|]. apply IH. congruence.
Qed.

Lemma nd_sum_spec (s : list Z) (n : nat) (l : list ndarray) :
  l <> [] ->
  Forall (fun a => nd_shape a = s /\ length (nd_data a) = n) l ->
  exists r, nd_sum l = Some r /\ nd_shape r = s /\ length (nd_data r) = n /\
            forall p, nd_nth r p = Zsum (map (fun a => nd_nth a p) l).
Proof.
  induction l as [|a l IH]; intros Hne Hall; [congruence|].
  inversion Hall as [|? ? [Hs Hn] Hall']; subst.
  destruct l as [|b l].
  - exists a. repeat split; try assumption. intros p. simpl. lia.
  - destruct IH as [r [Er [Hrs [Hrn Hr]]]]; [congruence | assumption |].
    change (nd_sum (a :: b :: l)) with (obind (nd_sum (b :: l)) (fun x => nd_add a x)).
    rewrite Er. cbn [obind]. unfold nd_add. rewrite Hrs, list_eqb_refl.
    eexists. split; [reflexivity|]. cbn [nd_shape nd_data].
    split; [reflexivity|]. split; [rewrite length_zip_add; congruence|].
    intros p. unfold nd_nth at 1. cbn [nd_data].
    rewrite nth_zip_add by congruence.
    change (map (fun x => nd_nth x p) (a :: b :: l))
      with (nd_nth a p :: map (fun x => nd_nth x p) (b :: l)).
    cbn [Zsum fold_right]. fold (Zsum (map (fun x => nd_nth x p) (b :: l))).
    rewrite <- Hr. reflexivity.
Qed.

(** ** The interleaved layout of [format_elemwise] *)

Lemma div_mod_of_stride (N k i p : Z) :
  0 <= i < N -> p = N * k + i -> p mod N = i /\ p / N = k.
Proof.
  intros Hi ->. split.
  - rewrite Z.add_comm, Z.mul_comm, Z.mod_add by lia. apply Z.mod_small; lia.
  - rewrite Z.add_comm, Z.mul_comm, Z.div_add by lia. rewrite Z.div_small by lia. lia.
Qed.

(** Entry [p] of the product of the spacing matrix of offset [i] with a
    column [v]: the entries of [v] appear at stride [N] from [i] on. *)
Lemma spacing_term_entry (s : list Z) (N R i p : Z) (v : ndarray) :
  0 <= R -> 0 <= i < N -> nd_shape v = [R; 1] -> 0 <= p < N * R ->
  nd_nth (tabulate (N * R) 1 (fun a j =>
            Zsum (map (fun k => nd_get (tabulate (N * R) R (sp_get (spacing_csc s R N i))) a k
                                * nd_get v k j)
                      (range R)))) p
  = if p mod N =? i then nd_nth v (p / N) else 0.
Proof.
  intros HR Hi Hv Hp.
  rewrite nd_nth_tabulate by lia.
  rewrite Z.mod_small, Z.div_small by lia.
  assert (G : forall k, In k (range R) ->
            nd_get (tabulate (N * R) R (sp_get (spacing_csc s R N i))) p k * nd_get v k 0
            = if p =? N * k + i then nd_nth v k else 0).
  { intros k Hk. apply In_range in Hk.
    rewrite nd_get_tabulate by lia. rewrite sp_get_spacing_csc.
    destruct (Z.leb_spec 0 k); [|lia]. destruct (Z.ltb_spec k R); [|lia]. cbn [andb].
    unfold nd_get. rewrite Hv. replace (0 * R + k) with k by lia.
    destruct (p =? N * k + i); lia. }
  destruct (Z.eqb_spec (p mod N) i) as [E|E].
  - rewrite (Zsum_single _ (range R) (p / N)).
    + rewrite G.
      * assert (p = N * (p / N) + i) as Hpe by (rewrite <- E; apply Z.div_mod; lia).
        destruct (Z.eqb_spec p (N * (p / N) + i)); [reflexivity | contradiction].
      * apply In_range. split; [apply Z.div_pos; lia|].
        apply Z.div_lt_upper_bound; lia.
    + apply NoDup_range.
    + apply In_range. split; [apply Z.div_pos; lia|].
      apply Z.div_lt_upper_bound; lia.
    + intros k Hk Hne. rewrite G by assumption.
      destruct (Z.eqb_spec p (N * k + i)) as [Hpe|]; [|reflexivity].
      destruct (div_mod_of_stride N k i p Hi Hpe). congruence.
  - apply Zsum_zero. intros k Hk. rewrite G by assumption.
    destruct (Z.eqb_spec p (N * k + i)) as [Hpe|]; [|reflexivity].
    destruct (div_mod_of_stride N k i p Hi Hpe). congruence.
Qed.

Lemma mul_expr_2d (l r : LinOp) (p q n : Z) :
  shape l = [p; q] -> shape r = [q; n] -> lu.mul_expr l r = Ok (Multiply l r [p; n]).
Proof. intros Hl Hr. unfold lu.mul_expr. now rewrite Hl, Hr, Z.eqb_refl. Qed.

Lemma Zlen_cons {A : Type} (a : A) (l : list A) : Zlen (a :: l) = 1 + Zlen l.
Proof. unfold Zlen. simpl length. lia. Qed.

Lemma Zlen_nonneg {A : Type} (l : list A) : 0 <= Zlen l.
Proof. unfold Zlen. lia. Qed.

(** The loop of [format_elemwise] on expressions of shape (R, 1) with
    values [vals], started at index [i0]. *)
Lemma elemwise_terms_spec (env : Z -> option ndarray) (N R : Z)
      (vars_ : list LinOp) (vals : list (list Z)) :
  0 <= R ->
  Forall2 (fun e v => shape e = [R; 1] /\ eval env e = Some (mk_ndarray [R; 1] v)) vars_ vals ->
  forall i0 acc, 0 <= i0 -> i0 + Zlen vars_ <= N ->
  exists new tv,
    elemwise_terms [N * R; R] N i0 vars_ acc = Ok (acc ++ new) /\
    length new = length vars_ /\
    Forall (fun t => shape t = [N * R; 1]) new /\
    eval_all env new = Some tv /\
    length tv = length vars_ /\
    Forall (fun a => nd_shape a = [N * R; 1] /\ length (nd_data a) = Z.to_nat (N * R)) tv /\
    forall p, 0 <= p < N * R ->
      Zsum (map (fun a => nd_nth a p) tv) =
      if (i0 <=? p mod N) && (p mod N <? i0 + Zlen vars_)
      then nth (Z.to_nat (p / N)) (nth (Z.to_nat (p mod N - i0)) vals []) 0
      else 0.
Proof.
  intros HR HF. induction HF as [|e v vars_ vals [He Hv] HF IH]; intros i0 acc Hi0 HN.
  - exists [], []. cbn [elemwise_terms]. rewrite app_nil_r.
    repeat split; try constructor.
    intros p Hp. unfold Zlen. simpl length.
    destruct (Z.leb_spec i0 (p mod N)); destruct (Z.ltb_spec (p mod N) (i0 + Z.of_nat 0));
      cbn [andb]; (reflexivity || lia).
  - rewrite Zlen_cons in HN. pose proof (Zlen_nonneg vars_) as Hl.
    cbn [elemwise_terms].
    rewrite get_spacing_matrix_ok by (try nia; intros c Hc; nia).
    cbn [bind Ok].
    rewrite (mul_expr_2d _ e (N * R) R 1) by (reflexivity || assumption).
    cbn [bind Ok].
    set (term := Multiply _ e [N * R; 1]).
    destruct (IH (i0 + 1) (acc ++ [term])) as [new [tv [E1 [E2 [E3 [E4 [E5 [E6 E7]]]]]]]];
      [lia | lia |].
    assert (Et : eval env term =
                 Some (tabulate (N * R) 1 (fun a j =>
                   Zsum (map (fun k =>
                           nd_get (tabulate (N * R) R
                                     (sp_get (spacing_csc [N * R; R] R N i0))) a k
                           * nd_get (mk_ndarray [R; 1] v) k j)
                         (range R))))).
    { apply eval_mul_sparse; [reflexivity | assumption | reflexivity]. }
    exists (term :: new), (tabulate (N * R) 1 (fun a j =>
                   Zsum (map (fun k =>
                           nd_get (tabulate (N * R) R
                                     (sp_get (spacing_csc [N * R; R] R N i0))) a k
                           * nd_get (mk_ndarray [R; 1] v) k j)
                         (range R))) :: tv).
    split; [rewrite E1, <- app_assoc; reflexivity|].
    split; [simpl; congruence|].
    split; [constructor; [reflexivity | assumption]|].
    split; [cbn [eval_all]; rewrite Et; cbn [obind]; rewrite E4; reflexivity|].
    split; [simpl; congruence|].
    split.
    { constructor; [|assumption]. split; [reflexivity|].
      rewrite length_tabulate. f_equal. lia. }
    intros p Hp. cbn [map Zsum fold_right].
    fold (Zsum (map (fun a => nd_nth a p) tv)).
    rewrite E7 by assumption.
    rewrite spacing_term_entry by (try lia; reflexivity).
    rewrite Zlen_cons.
    assert (0 <= p mod N < N) as Hm by (apply Z.mod_pos_bound; lia).
    destruct (Z.eqb_spec (p mod N) i0) as [E|E].
    + rewrite E.
      destruct (Z.leb_spec (i0 + 1) i0); [lia|].
      destruct (Z.leb_spec i0 i0); [|lia].
      destruct (Z.ltb_spec i0 (i0 + (1 + Zlen vars_))); [|lia].
      cbn [andb]. replace (i0 - i0) with 0 by lia.
      unfold nd_nth. cbn [nd_data Z.to_nat nth]. lia.
    + destruct (Z.leb_spec (i0 + 1) (p mod N));
        destruct (Z.leb_spec i0 (p mod N)); try lia;
        destruct (Z.ltb_spec (p mod N) (i0 + 1 + Zlen vars_));
        destruct (Z.ltb_spec (p mod N) (i0 + (1 + Zlen vars_))); try lia;
        cbn [andb]; try reflexivity.
      replace (Z.to_nat (p mod N - i0)) with (Datatypes.S (Z.to_nat (p mod N - (i0 + 1))))
        by lia.
      reflexivity.
Qed.

Lemma sum_expr_same_shape (ops : list LinOp) (first : LinOp) (rest : list LinOp) (s : list Z) :
  ops = first :: rest -> Forall (fun t => shape t = s) ops ->
  lu.sum_expr ops = Ok (Sum ops s).
Proof.
  intros -> HF. unfold lu.sum_expr.
  change (getitem (first :: rest) 0) with (@Ok LinOp first). cbn [bind Ok].
  inversion HF as [|? ? Hf _]; subst.
  replace (forallb _ _) with true; [reflexivity|].
  symmetry. apply forallb_forall. intros op Hop.
  rewrite Forall_forall in HF. rewrite (HF op Hop). apply list_eqb_refl.
Qed.

(** C1: for N >= 1 expressions of shape (R, 1) with values v0..v_{N-1},
    [format_elemwise] returns one constraint whose expression evaluates
    to a column of length N*R in which entry r*N + i is entry r of v_i;
    for [1, 2] and [10, 20] the column is [1, 10, 2, 20]. *)
Theorem format_elemwise_interleaves :
  (forall (env : Z -> option ndarray) (vars_ : list LinOp) (vals : list (list Z)) (R : Z),
     vars_ <> [] -> 0 <= R ->
     Forall2 (fun e v => shape e = [R; 1] /\ eval env e = Some (mk_ndarray [R; 1] v))
             vars_ vals ->
     exists total data,
       format_elemwise vars_ = Ok [Geq total] /\
       eval env total = Some (mk_ndarray [Zlen vars_ * R; 1] data) /\
       Zlen data = Zlen vars_ * R /\
       forall r i, 0 <= r < R -> 0 <= i < Zlen vars_ ->
         nth (Z.to_nat (r * Zlen vars_ + i)) data 0
         = nth (Z.to_nat r) (nth (Z.to_nat i) vals []) 0) /\
  eval_constraints elemwise_env (format_elemwise elemwise_vars)
  = Ok [Some (mk_ndarray [4; 1] [1; 10; 2; 20])].
Proof.
  split; [|reflexivity].
  intros env vars_ vals R Hne HR HF.
  set (N := Zlen vars_).
  destruct (elemwise_terms_spec env N R vars_ vals HR HF 0 [])
    as [new [tv [E1 [E2 [E3 [E4 [E5 [E6 E7]]]]]]]]; [lia | unfold N; lia |].
  cbn [app] in E1.
  destruct vars_ as [|e0 rest]; [congruence|].
  assert (He0 : shape e0 = [R; 1]) by (inversion HF as [|? ? ? ? [H _] _]; exact H).
  destruct new as [|t0 new']; [discriminate|].
  destruct (nd_sum_spec [N * R; 1] (Z.to_nat (N * R)) tv) as [r [Er [Hrs [Hrn Hr]]]].
  { destruct tv; [discriminate | congruence]. }
  { assumption. }
  destruct r as [rs data]. cbn [nd_shape nd_data] in Hrs, Hrn. subst rs.
  exists (Sum (t0 :: new') [N * R; 1]), data.
  split.
  { unfold format_elemwise.
    change (getitem (e0 :: rest) 0) with (@Ok LinOp e0). cbn [bind Ok].
    rewrite He0. change (getitem [R; 1] 0) with (@Ok Z R). cbn [bind Ok].
    fold N. rewrite E1. cbn [bind Ok].
    rewrite (sum_expr_same_shape (t0 :: new') t0 new' [N * R; 1]) by (reflexivity || assumption).
    reflexivity. }
  split.
  { rewrite eval_Sum, E4. cbn [obind]. rewrite Er. cbn [obind].
    now apply with_shape_same. }
  assert (HNpos : 1 <= N) by (unfold N; rewrite Zlen_cons; pose proof (Zlen_nonneg rest); lia).
  split; [unfold Zlen; rewrite Hrn; nia|].
  intros q i Hq Hi.
  change (nth (Z.to_nat (q * N + i)) data 0)
    with (nd_nth (mk_ndarray [N * R; 1] data) (q * N + i)).
  rewrite Hr, E7 by nia.
  destruct (div_mod_of_stride N q i (q * N + i)) as [Hm Hd]; [lia | lia |].
  rewrite Hm, Hd.
  fold N.
  destruct (Z.leb_spec 0 i); [|lia]. destruct (Z.ltb_spec i (0 + N)); [|lia].
  cbn [andb]. now replace (i - 0) with i by lia.
Qed.

Lemma format_elemwise_interleaves_witness :
  exists total data,
    format_elemwise elemwise_vars = Ok [Geq total] /\
    eval elemwise_env total = Some (mk_ndarray [Zlen elemwise_vars * 2; 1] data) /\
    Zlen data = Zlen elemwise_vars * 2 /\
    forall r i, 0 <= r < 2 -> 0 <= i < Zlen elemwise_vars ->
      nth (Z.to_nat (r * Zlen elemwise_vars + i)) data 0
      = nth (Z.to_nat r) (nth (Z.to_nat i) [[1; 2]; [10; 20]] []) 0.
Proof.
  apply (proj1 format_elemwise_interleaves elemwise_env elemwise_vars [[1; 2]; [10; 20]] 2).
  - discriminate.
  - lia.
  - repeat constructor.
Defined.

(** ** The stacked layout of [format_axis] *)

Lemma replicate_range (n : Z) : replicate n 1 = map (fun _ => 1) (range n).
Proof.
  unfold replicate, range. rewrite map_map.
  induction (Z.to_nat n) as [|k IH]; [reflexivity|].
  rewrite seq_S, map_app, <- IH. simpl.
  clear IH. induction k as [|k IH]; [reflexivity|]. simpl. now rewrite <- IH.
Qed.

Lemma sp_get_leader_csc (cone_size i k : Z) :
  sp_get (leader_csc cone_size) i k = if (i =? 0) && (k =? 0) then 1 else 0.
Proof.
  unfold sp_get, sp_triplets, sp_positions, leader_csc, sum_at.
  cbn [sp_data sp_row sp_col combine fold_right fst snd].
  rewrite (Z.eqb_sym 0 i), (Z.eqb_sym 0 k).
  destruct ((i =? 0) && (k =? 0)); reflexivity.
Qed.

Lemma sp_get_shift_csc (cone_size x_rows i k : Z) :
  sp_get (shift_csc cone_size x_rows) i k =
  if (0 <=? k) && (k <? cone_size - 1) && (i =? 1 + k) then 1 else 0.
Proof.
  unfold sp_get, sp_triplets, sp_positions, shift_csc. cbn [sp_data sp_row sp_col].
  rewrite replicate_range. unfold range2.
  change (sum_at i k (selector_triplets (fun c => 1 + c) (range (cone_size - 1))) =
          if (0 <=? k) && (k <? cone_size - 1) && (i =? 1 + k) then 1 else 0).
  destruct (Z.leb_spec 0 k); destruct (Z.ltb_spec k (cone_size - 1)); cbn [andb];
    try (apply sum_at_absent; rewrite In_range; lia).
  apply (sum_at_present (fun c => 1 + c)); [apply NoDup_range | apply In_range; lia].
Qed.

(** What a successful call of [format_axis] returns. *)
Lemma format_axis_inv (t X : LinOp) (axis : Z) (cs : list Constraint) :
  format_axis t X axis = Ok cs ->
  exists x_rows t_vec s1 s2 s,
    let X' := if axis =? 1 then lu.transpose X else X in
    getitem (shape X') 0 = Ok x_rows /\
    leader_row t = Ok t_vec /\
    cs = [Geq (Sum [Multiply (SparseConstant (leader_csc (1 + x_rows)) [1 + x_rows; 1])
                             t_vec s1;
                    Multiply (SparseConstant (shift_csc (1 + x_rows) x_rows)
                                             [1 + x_rows; x_rows])
                             X' s2] s)].
Proof.
  unfold format_axis.
  set (X' := if axis =? 1 then lu.transpose X else X).
  destruct (getitem (shape X') 0) as [e|x_rows]; [discriminate|]. cbn [bind].
  destruct (coo_matrix [1] [0] [0] _) as [e|tm] eqn:Et; [discriminate|].
  apply coo_matrix_inv in Et. subst tm. cbn [bind].
  destruct (leader_row t) as [e|t_vec]; [discriminate|]. cbn [bind].
  destruct (lu.mul_expr _ t_vec) as [e|term1] eqn:Em1; [discriminate|]. cbn [bind].
  destruct (coo_matrix _ _ _ _) as [e|xm] eqn:Ex; [discriminate|].
  apply coo_matrix_inv in Ex. subst xm. cbn [bind].
  destruct (lu.mul_expr _ X') as [e|term2] eqn:Em2; [discriminate|]. cbn [bind].
  destruct (lu.sum_expr _) as [e|total] eqn:Es; [discriminate|]. cbn [bind].
  intros H. inversion H. subst cs. clear H.
  assert (M : forall l r op, lu.mul_expr l r = Ok op -> exists s, op = Multiply l r s).
  { intros l r op. unfold lu.mul_expr.
    destruct (shape l) as [|p [|q [|? ?]]]; try discriminate.
    destruct (shape r) as [|q' [|n [|? ?]]]; try discriminate;
      destruct (q =? q'); try discriminate; intros H; inversion H; eauto. }
  destruct (M _ _ _ Em1) as [s1 ->]. destruct (M _ _ _ Em2) as [s2 ->].
  unfold lu.sum_expr in Es. cbn [app] in Es.
  match type of Es with
  | (_ <- ?g ;; _) = _ => change g with (@Ok LinOp (Multiply
        (lu.create_const (tocsc (mk_spmatrix COO [1 + x_rows; 1] [1] [0] [0])) [1 + x_rows; 1])
        t_vec s1)) in Es
  end.
  cbn [bind Ok] in Es.
  destruct (forallb _ _); [|discriminate]. inversion Es.
  exists x_rows, t_vec, s1, s2, s1. cbn zeta.
  split; [reflexivity|]. split; [reflexivity|]. reflexivity.
Qed.

(** C8: the positions stored by [get_spacing_matrix] and by the two
    selector matrices of [format_axis] are pairwise distinct, for every
    call that returns. *)
Theorem triplets_have_distinct_positions :
  (forall s spacing offset op,
     get_spacing_matrix s spacing offset = Ok op ->
     exists m, op = SparseConstant m s /\ NoDup (sp_positions m)) /\
  (forall t X axis cs,
     format_axis t X axis = Ok cs ->
     exists t_mat X_mat t_vec X' s1 s2 s3 s4 s,
       cs = [Geq (Sum [Multiply (SparseConstant t_mat s1) t_vec s2;
                       Multiply (SparseConstant X_mat s3) X' s4] s)] /\
       NoDup (sp_positions t_mat) /\ NoDup (sp_positions X_mat)).
Proof.
  split.
  - intros s spacing offset op H.
    destruct (get_spacing_matrix_inv s spacing offset op H) as [cols [_ ->]].
    eexists. split; [reflexivity|].
    unfold sp_positions, spacing_csc. cbn [sp_row sp_col].
    apply NoDup_combine_r, NoDup_range.
  - intros t X axis cs H.
    destruct (format_axis_inv t X axis cs H) as [x_rows [t_vec [s1 [s2 [s [_ [_ ->]]]]]]].
    do 9 eexists. split; [reflexivity|]. split.
    + unfold sp_positions, leader_csc. cbn [sp_row sp_col combine].
      constructor; [intros [] | constructor].
    + unfold sp_positions, shift_csc. cbn [sp_row sp_col].
      apply NoDup_combine_r, NoDup_range.
Qed.

Lemma triplets_have_distinct_positions_witness :
  (exists m, SparseConstant (mk_spmatrix CSC [6; 3] [1; 1; 1] [1; 3; 5] [0; 1; 2]) [6; 3]
             = SparseConstant m [6; 3] /\ NoDup (sp_positions m)) /\
  (exists t_mat X_mat t_vec X' s1 s2 s3 s4 s,
     [Geq (Sum [Multiply (SparseConstant (leader_csc 3) [3; 1]) (Reshape axis_t [1; 2]) [3; 2];
                Multiply (SparseConstant (shift_csc 3 2) [3; 2]) axis_X [3; 2]] [3; 2])]
     = [Geq (Sum [Multiply (SparseConstant t_mat s1) t_vec s2;
                  Multiply (SparseConstant X_mat s3) X' s4] s)] /\
     NoDup (sp_positions t_mat) /\ NoDup (sp_positions X_mat)).
Proof.
  split.
  - apply (proj1 triplets_have_distinct_positions [6; 3] 2 1). reflexivity.
  - apply (proj2 triplets_have_distinct_positions axis_t axis_X 0). reflexivity.
Defined.

Lemma format_axis_0_ok (t X : LinOp) (m m_rows : Z) :
  0 <= m_rows -> shape t = [m] -> shape X = [m_rows; m] ->
  format_axis t X 0 =
  Ok [Geq (Sum [Multiply (SparseConstant (leader_csc (1 + m_rows)) [1 + m_rows; 1])
                         (Reshape t [1; m]) [1 + m_rows; m];
                Multiply (SparseConstant (shift_csc (1 + m_rows) m_rows)
                                         [1 + m_rows; m_rows])
                         X [1 + m_rows; m]] [1 + m_rows; m])].
Proof.
  intros Hr Ht HX. unfold format_axis. cbn [Z.eqb]. rewrite HX.
  change (getitem [m_rows; m] 0) with (@Ok Z m_rows). cbn [bind Ok].
  unfold coo_matrix at 1.
  replace ((0 <=? 1 + m_rows) && (0 <=? 1)) with true
    by (symmetry; apply andb_true_iff; split; apply Z.leb_le; lia).
  cbn [negb length Nat.eqb andb all_in_range forallb].
  replace ((0 <=? 0) && (0 <? 1 + m_rows)) with true
    by (symmetry; apply andb_true_iff; split; [apply Z.leb_le | apply Z.ltb_lt]; lia).
  cbn [negb andb Z.leb Z.ltb Z.compare bind Ok].
  unfold leader_row. rewrite Ht. cbn [is_empty].
  change (getitem [m] 0) with (@Ok Z m). cbn [bind Ok].
  unfold lu.reshape. rewrite Ht.
  replace (numel [m] =? numel [1; m]) with true
    by (symmetry; apply Z.eqb_eq; unfold numel; cbn [fold_right]; lia).
  cbn [bind Ok].
  rewrite (mul_expr_2d _ (Reshape t [1; m]) (1 + m_rows) 1 m) by reflexivity.
  cbn [bind Ok app].
  unfold coo_matrix.
  replace ((0 <=? 1 + m_rows) && (0 <=? m_rows)) with true
    by (symmetry; apply andb_true_iff; split; apply Z.leb_le; lia).
  unfold range2, replicate. rewrite length_map, !length_range, repeat_length.
  rewrite Nat.eqb_refl. cbn [negb andb].
  assert (R : all_in_range (map (fun i => 1 + i) (range (1 + m_rows - 1))) (1 + m_rows) = true).
  { apply all_in_range_spec. intros x Hx. apply in_map_iff in Hx.
    destruct Hx as [c [<- Hc]]. apply In_range in Hc. lia. }
  assert (C : all_in_range (range (1 + m_rows - 1)) m_rows = true).
  { apply all_in_range_spec. intros x Hx. apply In_range in Hx. lia. }
  rewrite R, C. cbn [negb andb bind Ok].
  rewrite (mul_expr_2d _ X (1 + m_rows) m_rows m) by (reflexivity || assumption).
  cbn [bind Ok].
  erewrite sum_expr_same_shape; [reflexivity | reflexivity |].
  repeat constructor.
Qed.

Lemma leader_term_entry (cone m i j : Z) (tv : list Z) :
  0 <= i < cone ->
  Zsum (map (fun k => nd_get (tabulate cone 1 (sp_get (leader_csc cone))) i k
                      * nd_get (mk_ndarray [1; m] tv) k j)
            (range 1))
  = if i =? 0 then nth (Z.to_nat j) tv 0 else 0.
Proof.
  intros Hi. change (range 1) with [0]. cbn [map Zsum fold_right].
  rewrite nd_get_tabulate by lia. rewrite sp_get_leader_csc.
  unfold nd_get, nd_nth. cbn [nd_shape nd_data Z.eqb andb].
  rewrite andb_true_r. replace (j * 1 + 0) with j by lia.
  destruct (i =? 0); lia.
Qed.

Lemma shift_term_entry (m_rows i j : Z) (Xv : ndarray) :
  0 <= m_rows -> 0 <= i < 1 + m_rows ->
  Zsum (map (fun k => nd_get (tabulate (1 + m_rows) m_rows
                                (sp_get (shift_csc (1 + m_rows) m_rows))) i k
                      * nd_get Xv k j)
            (range m_rows))
  = if i =? 0 then 0 else nd_get Xv (i - 1) j.
Proof.
  intros Hr Hi.
  assert (G : forall k, In k (range m_rows) ->
            nd_get (tabulate (1 + m_rows) m_rows
                      (sp_get (shift_csc (1 + m_rows) m_rows))) i k * nd_get Xv k j
            = if i =? 1 + k then nd_get Xv k j else 0).
  { intros k Hk. apply In_range in Hk.
    rewrite nd_get_tabulate by lia. rewrite sp_get_shift_csc.
    destruct (Z.leb_spec 0 k); [|lia].
    destruct (Z.ltb_spec k (1 + m_rows - 1)); [|lia]. cbn [andb].
    destruct (i =? 1 + k); lia. }
  destruct (Z.eqb_spec i 0) as [->|Hne].
  - apply Zsum_zero. intros k Hk. rewrite G by assumption.
    apply In_range in Hk. destruct (Z.eqb_spec 0 (1 + k)); [lia | reflexivity].
  - rewrite (Zsum_single _ (range m_rows) (i - 1)).
    + rewrite G by (apply In_range; lia).
      destruct (Z.eqb_spec i (1 + (i - 1))); [reflexivity | lia].
    + apply NoDup_range.
    + apply In_range. lia.
    + intros k Hk Hk'. rewrite G by assumption.
      destruct (Z.eqb_spec i (1 + k)); [lia | reflexivity].
Qed.

(** C2: for a 1-D leader t of length m and X of shape (m_rows, m),
    [format_axis(t, X, 0)] returns one constraint whose expression
    evaluates to an array of shape (1 + m_rows, m) whose column j is
    t_j above column j of X; for t = [5, 6] and X with columns [1, 2]
    and [3, 4] the columns are [5, 1, 2] and [6, 3, 4]. *)
Theorem format_axis_stacks_columns :
  (forall (env : Z -> option ndarray) (t X : LinOp) (tv Xv : list Z) (m m_rows : Z),
     0 <= m -> 0 <= m_rows ->
     shape t = [m] -> shape X = [m_rows; m] ->
     eval env t = Some (mk_ndarray [m] tv) ->
     eval env X = Some (mk_ndarray [m_rows; m] Xv) ->
     exists total out,
       format_axis t X 0 = Ok [Geq total] /\
       eval env total = Some out /\
       nd_shape out = [1 + m_rows; m] /\
       Zlen (nd_data out) = (1 + m_rows) * m /\
       forall j, 0 <= j < m ->
         nd_get out 0 j = nth (Z.to_nat j) tv 0 /\
         forall i, 0 <= i < m_rows ->
           nd_get out (1 + i) j = nd_get (mk_ndarray [m_rows; m] Xv) i j) /\
  eval_constraints axis_env (format_axis axis_t axis_X 0)
  = Ok [Some (mk_ndarray [3; 2] [5; 1; 2; 6; 3; 4])].
Proof.
  split; [|reflexivity].
  intros env t X tv Xv m m_rows Hm Hr Ht HX Et EX.
  set (cone := 1 + m_rows).
  set (A := tabulate cone m (fun i j =>
              Zsum (map (fun k => nd_get (tabulate cone 1 (sp_get (leader_csc cone))) i k
                                  * nd_get (mk_ndarray [1; m] tv) k j) (range 1)))).
  set (B := tabulate cone m (fun i j =>
              Zsum (map (fun k => nd_get (tabulate cone m_rows
                                            (sp_get (shift_csc cone m_rows))) i k
                                  * nd_get (mk_ndarray [m_rows; m] Xv) k j)
                        (range m_rows)))).
  destruct (nd_sum_spec [cone; m] (Z.to_nat (cone * m)) [A; B])
    as [r [Er [Hrs [Hrn Hr']]]].
  { discriminate. }
  { repeat constructor; apply length_tabulate. }
  eexists. exists r.
  split; [apply (format_axis_0_ok t X m m_rows); assumption|].
  fold cone. split.
  { rewrite eval_Sum. cbn [eval_all].
    rewrite (eval_mul_sparse env (leader_csc cone) (Reshape t [1; m])
               (mk_ndarray [1; m] tv) cone 1 m).
    - rewrite (eval_mul_sparse env (shift_csc cone m_rows) X
                 (mk_ndarray [m_rows; m] Xv) cone m_rows m);
        [|reflexivity | assumption | reflexivity].
      cbn [obind]. fold A B. rewrite Er. cbn [obind]. now apply with_shape_same.
    - reflexivity.
    - cbn [eval]. rewrite Et. cbn [obind]. unfold nd_reshape. cbn [nd_shape nd_data].
      replace (numel [m] =? numel [1; m]) with true; [reflexivity|].
      symmetry. apply Z.eqb_eq. unfold numel. cbn [fold_right]. lia.
    - reflexivity. }
  split; [assumption|].
  split; [unfold Zlen; rewrite Hrn; unfold cone; nia|].
  assert (E : forall i j, 0 <= i < cone -> 0 <= j < m ->
            nd_get r i j = (if i =? 0 then nth (Z.to_nat j) tv 0 else 0)
                           + (if i =? 0 then 0
                              else nd_get (mk_ndarray [m_rows; m] Xv) (i - 1) j)).
  { intros i j Hi Hj. unfold nd_get at 1. rewrite Hrs, Hr'.
    cbn [map Zsum fold_right].
    change (nd_nth A (j * cone + i)) with (nd_get A i j).
    change (nd_nth B (j * cone + i)) with (nd_get B i j).
    unfold A, B. rewrite !nd_get_tabulate by assumption.
    rewrite leader_term_entry by assumption.
    unfold cone. rewrite shift_term_entry by (assumption || lia). lia. }
  intros j Hj. split.
  - rewrite E by (unfold cone; lia). cbn [Z.eqb]. lia.
  - intros i Hi. rewrite E by (unfold cone; lia).
    destruct (Z.eqb_spec (1 + i) 0); [lia|].
    now replace (1 + i - 1) with i by lia.
Qed.

Lemma format_axis_stacks_columns_witness :
  exists total out,
    format_axis axis_t axis_X 0 = Ok [Geq total] /\
    eval axis_env total = Some out /\
    nd_shape out = [1 + 2; 2] /\
    Zlen (nd_data out) = (1 + 2) * 2 /\
    forall j, 0 <= j < 2 ->
      nd_get out 0 j = nth (Z.to_nat j) [5; 6] 0 /\
      forall i, 0 <= i < 2 ->
        nd_get out (1 + i) j = nd_get (mk_ndarray [2; 2] [1; 2; 3; 4]) i j.
Proof.
  apply (proj1 format_axis_stacks_columns axis_env axis_t axis_X [5; 6] [1; 2; 3; 4] 2 2);
    (lia || reflexivity).
Defined.

(** ** Scalar and length-one leaders *)

(** [format_axis] depends on the leader only through the shape and the
    value of the reshaped row. *)
Lemma format_axis_leader_congr (env : Z -> option ndarray) (t1 t2 X : LinOp) (axis : Z)
      (r1 r2 : LinOp) :
  leader_row t1 = Ok r1 -> leader_row t2 = Ok r2 ->
  shape r1 = shape r2 -> eval env r1 = eval env r2 ->
  eval_constraints env (format_axis t1 X axis) = eval_constraints env (format_axis t2 X axis).
Proof.
  intros L1 L2 Hs He. unfold format_axis. rewrite L1, L2.
  set (X' := if axis =? 1 then lu.transpose X else X).
  destruct (getitem (shape X') 0) as [e|x_rows]; [reflexivity|]. cbn [bind].
  destruct (coo_matrix [1] [0] [0] _) as [e|tm]; [reflexivity|]. cbn [bind Ok].
  assert (M : forall l,
             (exists e, lu.mul_expr l r1 = Err e /\ lu.mul_expr l r2 = Err e) \/
             (exists s, lu.mul_expr l r1 = Ok (Multiply l r1 s) /\
                        lu.mul_expr l r2 = Ok (Multiply l r2 s))).
  { intros l. unfold lu.mul_expr. rewrite Hs.
    destruct (shape l) as [|p [|q [|? ?]]]; eauto.
    destruct (shape r2) as [|q' [|n [|? ?]]]; eauto; destruct (q =? q'); eauto. }
  destruct (M (lu.create_const (tocsc tm) [1 + x_rows; 1])) as [[e [E1 E2]]|[s [E1 E2]]];
    rewrite E1, E2; [reflexivity|].
  cbn [bind Ok app].
  destruct (coo_matrix _ _ _ _) as [e|xm]; [reflexivity|]. cbn [bind].
  destruct (lu.mul_expr _ X') as [e|term2]; [reflexivity|]. cbn [bind].
  unfold lu.sum_expr.
  match goal with
  | |- context [getitem (?a :: ?l) 0] => change (getitem (a :: l) 0) with (@Ok LinOp a)
  end.
  match goal with
  | |- context [getitem (?a :: ?l) 0] => change (getitem (a :: l) 0) with (@Ok LinOp a)
  end.
  cbn [bind Ok forallb shape].
  destruct (list_eqb s s && (list_eqb (shape term2) s && true)); [|reflexivity].
  cbn [bind Ok eval_constraints map constr_expr lu.create_geq].
  unfold eval_constraints. cbn [bind Ok map constr_expr lu.create_geq].
  do 2 f_equal. rewrite !eval_Sum. cbn [eval_all eval]. rewrite He. reflexivity.
Qed.

(** ** Mismatched shapes in [format_elemwise] *)

Lemma mul_expr_mul_shape (l r : LinOp) :
  lu.mul_expr l r = match mul_shape (shape l) (shape r) with
                    | Some s => Ok (Multiply l r s)
                    | None => Err ShapeMismatch
                    end.
Proof.
  unfold lu.mul_expr, mul_shape.
  destruct (shape l) as [|p [|q [|? ?]]]; try reflexivity.
  destruct (shape r) as [|q' [|n [|? ?]]]; try reflexivity; now destruct (q =? q').
Qed.

Lemma mul_shape_inj (M R : Z) (s1 s2 t : list Z) :
  mul_shape [M; R] s1 = Some t -> mul_shape [M; R] s2 = Some t -> s1 = s2.
Proof.
  unfold mul_shape.
  destruct s1 as [|a1 [|b1 [|? ?]]]; try discriminate;
    destruct s2 as [|a2 [|b2 [|? ?]]]; try discriminate;
    destruct (Z.eqb_spec R a1); try discriminate;
    destruct (Z.eqb_spec R a2); try discriminate;
    intros H1 H2; inversion H1; subst; inversion H2; subst; reflexivity.
Qed.

(** The loop of [format_elemwise] either stops on a [ShapeMismatch] of
    [lu.mul_expr] or returns one product per expression. *)
Lemma elemwise_terms_shapes (N R : Z) (vars_ : list LinOp) :
  0 <= R ->
  forall i0 acc, 0 <= i0 -> i0 + Zlen vars_ <= N ->
  elemwise_terms [N * R; R] N i0 vars_ acc = Err ShapeMismatch \/
  exists new,
    elemwise_terms [N * R; R] N i0 vars_ acc = Ok (acc ++ new) /\
    Forall2 (fun e t => mul_shape [N * R; R] (shape e) = Some (shape t)) vars_ new.
Proof.
  intros HR. induction vars_ as [|e vars_ IH]; intros i0 acc Hi0 HN.
  - right. exists []. cbn [elemwise_terms]. rewrite app_nil_r. split; constructor.
  - rewrite Zlen_cons in HN. pose proof (Zlen_nonneg vars_) as Hl.
    cbn [elemwise_terms].
    rewrite get_spacing_matrix_ok by (try nia; intros c Hc; nia).
    cbn [bind Ok]. rewrite mul_expr_mul_shape. cbn [shape].
    destruct (mul_shape [N * R; R] (shape e)) as [s|] eqn:Es; [|now left].
    cbn [bind Ok].
    match goal with
    | |- context [elemwise_terms _ _ _ _ (acc ++ [?t])] => set (term := t)
    end.
    destruct (IH (i0 + 1) (acc ++ [term])) as [E|[new [E HF]]]; [lia | lia | now left |].
    right. exists (term :: new). split.
    + rewrite E, <- app_assoc. reflexivity.
    + constructor; [exact Es | exact HF].
Qed.

(** A mismatch below a first expression that has a row count. *)
Lemma format_elemwise_mismatch_rows (e0 : LinOp) (rest : list LinOp)
        (rows0 : Z) (dims0 : list Z) :
  shape e0 = rows0 :: dims0 -> 0 <= rows0 ->
  Exists (fun e => shape e <> shape e0) rest ->
  format_elemwise (e0 :: rest) = Err ShapeMismatch.
Proof.
  intros He0 HR Hex. unfold format_elemwise.
  change (getitem (e0 :: rest) 0) with (@Ok LinOp e0). cbn [bind Ok].
  rewrite He0. change (getitem (rows0 :: dims0) 0) with (@Ok Z rows0). cbn [bind Ok].
  set (N := Zlen (e0 :: rest)).
  destruct (elemwise_terms_shapes N rows0 (e0 :: rest) HR 0 [])
    as [E|[new [E HF]]]; [lia | unfold N; lia | now rewrite E |].
  rewrite E. cbn [app bind Ok].
  inversion HF as [|? t0 ? new' H0 HF']; subst.
  unfold lu.sum_expr. change (getitem (t0 :: new') 0) with (@Ok LinOp t0). cbn [bind Ok].
  replace (forallb _ _) with false; [reflexivity|].
  symmetry. apply not_true_is_false. intros Hall. rewrite forallb_forall in Hall.
  clear E HF. clearbody N. revert new' HF' Hall.
  induction Hex as [e l Hne|e l Hex IH]; intros new' HF' Hall;
    inversion HF' as [|? t ? l' Ht HFl]; subst.
  - apply Hne. rewrite He0 in *.
    apply (mul_shape_inj (N * rows0) rows0 (shape e) (rows0 :: dims0) (shape t0));
      [|assumption].
    rewrite Ht. f_equal.
    apply list_eqb_eq. apply Hall. right. now left.
  - apply (IH l' HFl). intros x Hx. apply Hall.
    destruct Hx as [<-|Hx]; [now left | right; now right].
Qed.

(** * Further properties *)

(** ** [get_spacing_matrix] on arbitrary shapes *)

(** X1: [get_spacing_matrix] reads [shape[1]] first, so a shape tuple
    with fewer than two entries raises [IndexError], whatever the
    spacing and the offset. *)
Theorem get_spacing_matrix_short_shape (s : list Z) (spacing offset : Z) :
  (length s < 2)%nat -> get_spacing_matrix s spacing offset = Err IndexError.
Proof.
  intros H. destruct s as [|a [|b s]]; [reflexivity | reflexivity | simpl in H; lia].
Qed.

Lemma get_spacing_matrix_short_shape_witness :
  get_spacing_matrix [4] 2 1 = Err IndexError.
Proof. apply get_spacing_matrix_short_shape. simpl. lia. Defined.

Lemma get_spacing_matrix_accepts (rows cols spacing offset : Z) (op : LinOp) :
  0 <= cols ->
  get_spacing_matrix [rows; cols] spacing offset = Ok op ->
  forall c, 0 <= c < cols -> 0 <= spacing * c + offset < rows.
Proof.
  intros Hc H c Hcc. unfold get_spacing_matrix in H.
  rewrite (getitem_nth [rows; cols] 1 cols) in H by (reflexivity || lia).
  cbn [bind Ok] in H. rewrite spacing_arrays_eq in H.
  destruct (coo_matrix _ _ _ _) as [e|m] eqn:E; [discriminate|].
  apply coo_matrix_accepts in E. destruct E as [R _].
  rewrite all_in_range_spec in R. apply R.
  apply in_map_iff. exists c. split; [reflexivity | now apply In_range].
Qed.

(** The error of a call with an index outside the shape. *)
Lemma get_spacing_matrix_rejects (rows cols spacing offset : Z) :
  0 <= rows -> 0 <= cols ->
  (exists c, 0 <= c < cols /\ ~ (0 <= spacing * c + offset < rows)) ->
  get_spacing_matrix [rows; cols] spacing offset =
  if forallb (fits (index_bound [rows; cols]))
             (map (fun c => spacing * c + offset) (range cols))
     && forallb (fits (index_bound [rows; cols])) (range cols)
  then Err ValueError else Err OverflowError.
Proof.
  intros Hr Hc [c [Hcc Hout]]. unfold get_spacing_matrix.
  rewrite (getitem_nth [rows; cols] 1 cols) by (reflexivity || lia).
  cbn [bind Ok]. rewrite spacing_arrays_eq.
  rewrite coo_matrix_out_of_range; [now destruct (_ && _) | assumption | assumption |].
  apply not_true_is_false. intros R. rewrite all_in_range_spec in R. apply Hout, R.
  apply in_map_iff. exists c. split; [reflexivity | now apply In_range].
Qed.



(** X3: whenever [get_spacing_matrix] returns, the shape is a pair
    (rows, cols), the result is a sparse constant of that shape, and its
    entry (i, j) is 1 if 0 <= j < cols and i = spacing*j + offset, and 0
    otherwise; this holds for any spacing and offset, also for spacing
    0 or a shape taller than spacing*cols. *)
Theorem get_spacing_matrix_entries (s : list Z) (spacing offset : Z) (op : LinOp) :
  get_spacing_matrix s spacing offset = Ok op ->
  exists m rows cols,
    s = [rows; cols] /\ op = SparseConstant m s /\ sp_shape m = s /\
    Zlen (sp_data m) = Z.max 0 cols /\
    forall i j, sp_get m i j =
                if (0 <=? j) && (j <? cols) && (i =? spacing * j + offset) then 1 else 0.
Proof.
  intros H.
  destruct (get_spacing_matrix_inv s spacing offset op H) as [cols [Hg ->]].
  assert (exists rows, s = [rows; cols]) as [rows ->].
  { unfold get_spacing_matrix in H. rewrite Hg in H. cbn [bind Ok] in H.
    destruct (spacing_arrays cols spacing offset) as [[va ra] ca].
    unfold coo_matrix in H.
    destruct s as [|a [|b [|? ?]]]; try discriminate.
    exists a. unfold getitem in Hg. cbn in Hg. now inversion Hg. }
  exists (spacing_csc [rows; cols] cols spacing offset), rows, cols.
  repeat split.
  - unfold Zlen, spacing_csc. cbn [sp_data]. rewrite length_map, length_range. lia.
  - intros i j. apply sp_get_spacing_csc.
Qed.

Lemma get_spacing_matrix_entries_witness :
  exists m rows cols,
    [10; 2] = [rows; cols] /\
    SparseConstant (mk_spmatrix CSC [10; 2] [1; 1] [3; 5] [0; 1]) [10; 2]
      = SparseConstant m [10; 2] /\
    sp_shape m = [10; 2] /\
    Zlen (sp_data m) = Z.max 0 cols /\
    forall i j, sp_get m i j =
                if (0 <=? j) && (j <? cols) && (i =? 2 * j + 3) then 1 else 0.
Proof. apply (get_spacing_matrix_entries [10; 2] 2 3). reflexivity. Defined.

(** X4: the spacing matrices of offsets 0..spacing-1 split the rows
    between them: row p of the matrix of offset i holds a 1 in column c
    exactly when i = p mod spacing and c = p / spacing, so every row is
    selected by one offset and one column only. *)
Theorem spacing_matrices_partition_rows (k spacing i p c : Z) :
  0 <= k -> 0 <= i < spacing -> 0 <= p < spacing * k ->
  exists m,
    get_spacing_matrix [spacing * k; k] spacing i
      = Ok (SparseConstant m [spacing * k; k]) /\
    (sp_get m p c = 1 <-> i = p mod spacing /\ c = p / spacing).
Proof.
  intros Hk Hi Hp.
  exists (spacing_csc [spacing * k; k] k spacing i).
  split; [apply get_spacing_matrix_ok; try nia; intros c' Hc'; nia|].
  rewrite sp_get_spacing_csc.
  assert (Hq : 0 <= p / spacing < k).
  { split; [apply Z.div_pos; lia | apply Z.div_lt_upper_bound; lia]. }
  assert (Hdm : p = spacing * (p / spacing) + p mod spacing) by (apply Z.div_mod; lia).
  destruct (Z.leb_spec 0 c); destruct (Z.ltb_spec c k); cbn [andb];
    [|split; [discriminate | intros [_ ->]; lia] ..].
  destruct (Z.eqb_spec p (spacing * c + i)) as [E|E].
  - destruct (div_mod_of_stride spacing c i p Hi E) as [Hm Hd].
    split; [intros _; split; congruence | reflexivity].
  - split; [discriminate|]. intros [-> ->]. contradiction.
Qed.

Lemma spacing_matrices_partition_rows_witness :
  exists m,
    get_spacing_matrix [2 * 3; 3] 2 1 = Ok (SparseConstant m [2 * 3; 3]) /\
    (sp_get m 3 1 = 1 <-> 1 = 3 mod 2 /\ 1 = 3 / 2).
Proof. apply (spacing_matrices_partition_rows 3 2 1 3 1); lia. Defined.

(** ** Indexing failures of the two formatters *)

(** X5: when the first expression has the empty shape (), reading
    [vars_[0].shape[0]] raises [IndexError]: [format_elemwise] fails
    whatever the other expressions are. *)
Theorem format_elemwise_scalar_first (e0 : LinOp) (rest : list LinOp) :
  shape e0 = [] -> format_elemwise (e0 :: rest) = Err IndexError.
Proof.
  intros H. unfold format_elemwise.
  change (getitem (e0 :: rest) 0) with (@Ok LinOp e0). cbn [bind Ok].
  rewrite H. reflexivity.
Qed.

Lemma format_elemwise_scalar_first_witness :
  format_elemwise (Var 0 [] :: [Var 1 [2; 1]]) = Err IndexError.
Proof. apply format_elemwise_scalar_first. reflexivity. Defined.

(** X6: when X has the empty shape (), reading [X.shape[0]] raises
    [IndexError]: [format_axis] fails for every leader and every axis
    (the transpose of a shapeless operator is shapeless too). *)
Theorem format_axis_scalar_X (t X : LinOp) (axis : Z) :
  shape X = [] -> format_axis t X axis = Err IndexError.
Proof.
  intros H. unfold format_axis.
  destruct (axis =? 1); cbn [lu.transpose shape]; rewrite H; reflexivity.
Qed.

Lemma format_axis_scalar_X_witness :
  format_axis (Var 0 [2]) (Var 1 []) 1 = Err IndexError.
Proof. apply format_axis_scalar_X. reflexivity. Defined.

(** ** Spacing matrices applied to matrices with several columns *)

Lemma spacing_term_get (s : list Z) (N R C i p j : Z) (v : ndarray) :
  0 <= R -> 0 <= i < N -> 0 <= p < N * R -> 0 <= j < C ->
  nd_get (tabulate (N * R) C (fun a b =>
            Zsum (map (fun k => nd_get (tabulate (N * R) R (sp_get (spacing_csc s R N i))) a k
                                * nd_get v k b)
                      (range R)))) p j
  = if p mod N =? i then nd_get v (p / N) j else 0.
Proof.
  intros HR Hi Hp Hj.
  rewrite nd_get_tabulate by lia.
  assert (G : forall k, In k (range R) ->
            nd_get (tabulate (N * R) R (sp_get (spacing_csc s R N i))) p k * nd_get v k j
            = if p =? N * k + i then nd_get v k j else 0).
  { intros k Hk. apply In_range in Hk.
    rewrite nd_get_tabulate by lia. rewrite sp_get_spacing_csc.
    destruct (Z.leb_spec 0 k); [|lia]. destruct (Z.ltb_spec k R); [|lia]. cbn [andb].
    destruct (p =? N * k + i); lia. }
  assert (Hq : In (p / N) (range R)).
  { apply In_range. split; [apply Z.div_pos; lia | apply Z.div_lt_upper_bound; lia]. }
  destruct (Z.eqb_spec (p mod N) i) as [E|E].
  - rewrite (Zsum_single _ (range R) (p / N)); [| apply NoDup_range | exact Hq |].
    + rewrite G by exact Hq.
      assert (p = N * (p / N) + i) as Hpe by (rewrite <- E; apply Z.div_mod; lia).
      destruct (Z.eqb_spec p (N * (p / N) + i)); [reflexivity | contradiction].
    + intros k Hk Hne. rewrite G by assumption.
      destruct (Z.eqb_spec p (N * k + i)) as [Hpe|]; [|reflexivity].
      destruct (div_mod_of_stride N k i p Hi Hpe). congruence.
  - apply Zsum_zero. intros k Hk. rewrite G by assumption.
    destruct (Z.eqb_spec p (N * k + i)) as [Hpe|]; [|reflexivity].
    destruct (div_mod_of_stride N k i p Hi Hpe). congruence.
Qed.

(** X7: multiplying the matrix of [get_spacing_matrix((spacing*k, k),
    spacing, offset)] by an operator of shape (k, C) scatters its rows:
    row p of the product is row p / spacing of the operand when
    p mod spacing = offset, and a row of zeros otherwise. *)
Theorem spacing_matrix_scatters (env : Z -> option ndarray)
        (k spacing offset C : Z) (e : LinOp) (v : ndarray) :
  0 <= k -> 0 <= offset < spacing -> shape e = [k; C] -> eval env e = Some v ->
  exists mat prod out,
    get_spacing_matrix [spacing * k; k] spacing offset = Ok mat /\
    lu.mul_expr mat e = Ok prod /\
    eval env prod = Some out /\
    nd_shape out = [spacing * k; C] /\
    forall p j, 0 <= p < spacing * k -> 0 <= j < C ->
      nd_get out p j = if p mod spacing =? offset then nd_get v (p / spacing) j else 0.
Proof.
  intros Hk Ho He Ev.
  pose proof (eval_shape env e v Ev) as Hv. rewrite He in Hv.
  do 3 eexists.
  split; [apply get_spacing_matrix_ok; try nia; intros c Hc; nia|].
  split; [apply (mul_expr_2d _ e (spacing * k) k C); [reflexivity | assumption]|].
  split; [apply eval_mul_sparse; [reflexivity | eassumption | assumption]|].
  split; [reflexivity|].
  intros p j Hp Hj. now apply spacing_term_get.
Qed.

Lemma spacing_matrix_scatters_witness :
  exists mat prod out,
    get_spacing_matrix [2 * 2; 2] 2 1 = Ok mat /\
    lu.mul_expr mat (Var 1 [2; 1]) = Ok prod /\
    eval elemwise_env prod = Some out /\
    nd_shape out = [2 * 2; 1] /\
    forall p j, 0 <= p < 2 * 2 -> 0 <= j < 1 ->
      nd_get out p j
      = if p mod 2 =? 1 then nd_get (mk_ndarray [2; 1] [10; 20]) (p / 2) j else 0.
Proof.
  apply (spacing_matrix_scatters elemwise_env 2 2 1 1 (Var 1 [2; 1])
           (mk_ndarray [2; 1] [10; 20])); (lia || reflexivity).
Defined.

(** ** [format_elemwise] on matrices *)

Lemma elemwise_terms_layout (env : Z -> option ndarray) (N R C : Z)
      (vars_ : list LinOp) (vals : list ndarray) :
  0 <= R -> 0 <= C ->
  Forall2 (fun e v => shape e = [R; C] /\ eval env e = Some v) vars_ vals ->
  forall i0 acc, 0 <= i0 -> i0 + Zlen vars_ <= N ->
  exists new tv,
    elemwise_terms [N * R; R] N i0 vars_ acc = Ok (acc ++ new) /\
    length new = length vars_ /\
    Forall (fun t => shape t = [N * R; C]) new /\
    eval_all env new = Some tv /\
    length tv = length vars_ /\
    Forall (fun a => nd_shape a = [N * R; C] /\
                     length (nd_data a) = Z.to_nat (N * R * C)) tv /\
    forall p j, 0 <= p < N * R -> 0 <= j < C ->
      Zsum (map (fun a => nd_get a p j) tv) =
      if (i0 <=? p mod N) && (p mod N <? i0 + Zlen vars_)
      then nd_get (nth (Z.to_nat (p mod N - i0)) vals (mk_ndarray [] [])) (p / N) j
      else 0.
Proof.
  intros HR HC HF. induction HF as [|e v vars_ vals [He Hv] HF IH]; intros i0 acc Hi0 HN.
  - exists [], []. cbn [elemwise_terms]. rewrite app_nil_r.
    repeat split; try constructor.
    intros p j Hp Hj. unfold Zlen. simpl length.
    destruct (Z.leb_spec i0 (p mod N)); destruct (Z.ltb_spec (p mod N) (i0 + Z.of_nat 0));
      cbn [andb]; (reflexivity || lia).
  - rewrite Zlen_cons in HN. pose proof (Zlen_nonneg vars_) as Hl.
    pose proof (eval_shape env e v Hv) as Hs. rewrite He in Hs.
    cbn [elemwise_terms].
    rewrite get_spacing_matrix_ok by (try nia; intros c Hc; nia).
    cbn [bind Ok].
    rewrite (mul_expr_2d _ e (N * R) R C) by (reflexivity || assumption).
    cbn [bind Ok].
    set (term := Multiply _ e [N * R; C]).
    destruct (IH (i0 + 1) (acc ++ [term])) as [new [tv [E1 [E2 [E3 [E4 [E5 [E6 E7]]]]]]]];
      [lia | lia |].
    set (A := tabulate (N * R) C (fun a b =>
                Zsum (map (fun k =>
                        nd_get (tabulate (N * R) R
                                  (sp_get (spacing_csc [N * R; R] R N i0))) a k
                        * nd_get v k b)
                      (range R)))).
    assert (Et : eval env term = Some A).
    { apply eval_mul_sparse; [reflexivity | assumption | assumption]. }
    exists (term :: new), (A :: tv).
    split; [rewrite E1, <- app_assoc; reflexivity|].
    split; [simpl; congruence|].
    split; [constructor; [reflexivity | assumption]|].
    split; [cbn [eval_all]; rewrite Et; cbn [obind]; rewrite E4; reflexivity|].
    split; [simpl; congruence|].
    split.
    { constructor; [|assumption]. split; [reflexivity|]. apply length_tabulate. }
    intros p j Hp Hj. cbn [map Zsum fold_right].
    fold (Zsum (map (fun a => nd_get a p j) tv)).
    rewrite E7 by assumption.
    unfold A. rewrite spacing_term_get by lia.
    rewrite Zlen_cons.
    assert (0 <= p mod N < N) as Hm by (apply Z.mod_pos_bound; lia).
    destruct (Z.eqb_spec (p mod N) i0) as [E|E].
    + rewrite E.
      destruct (Z.leb_spec (i0 + 1) i0); [lia|].
      destruct (Z.leb_spec i0 i0); [|lia].
      destruct (Z.ltb_spec i0 (i0 + (1 + Zlen vars_))); [|lia].
      cbn [andb]. replace (i0 - i0) with 0 by lia.
      cbn [Z.to_nat nth]. lia.
    + destruct (Z.leb_spec (i0 + 1) (p mod N));
        destruct (Z.leb_spec i0 (p mod N)); try lia;
        destruct (Z.ltb_spec (p mod N) (i0 + 1 + Zlen vars_));
        destruct (Z.ltb_spec (p mod N) (i0 + (1 + Zlen vars_))); try lia;
        cbn [andb]; try reflexivity.
      replace (Z.to_nat (p mod N - i0)) with (Datatypes.S (Z.to_nat (p mod N - (i0 + 1))))
        by lia.
      reflexivity.
Qed.

(** The layout of [format_elemwise] on expressions of shape (R, C). *)
Lemma format_elemwise_rows_layout (env : Z -> option ndarray)
      (vars_ : list LinOp) (vals : list ndarray) (R C : Z) :
  vars_ <> [] -> 0 <= R -> 0 <= C ->
  Forall2 (fun e v => shape e = [R; C] /\ eval env e = Some v) vars_ vals ->
  exists total out,
    format_elemwise vars_ = Ok [Geq total] /\
    eval env total = Some out /\
    nd_shape out = [Zlen vars_ * R; C] /\
    Zlen (nd_data out) = Zlen vars_ * R * C /\
    forall r i j, 0 <= r < R -> 0 <= i < Zlen vars_ -> 0 <= j < C ->
      nd_get out (r * Zlen vars_ + i) j
      = nd_get (nth (Z.to_nat i) vals (mk_ndarray [] [])) r j.
Proof.
  intros Hne HR HC HF.
  set (N := Zlen vars_).
  destruct (elemwise_terms_layout env N R C vars_ vals HR HC HF 0 [])
    as [new [tv [E1 [E2 [E3 [E4 [E5 [E6 E7]]]]]]]]; [lia | unfold N; lia |].
  cbn [app] in E1.
  destruct vars_ as [|e0 rest]; [congruence|].
  assert (He0 : shape e0 = [R; C]) by (inversion HF as [|? ? ? ? [H _] _]; exact H).
  destruct new as [|t0 new']; [discriminate|].
  destruct (nd_sum_spec [N * R; C] (Z.to_nat (N * R * C)) tv) as [r [Er [Hrs [Hrn Hr]]]].
  { destruct tv; [discriminate | congruence]. }
  { assumption. }
  exists (Sum (t0 :: new') [N * R; C]), r.
  split.
  { unfold format_elemwise.
    change (getitem (e0 :: rest) 0) with (@Ok LinOp e0). cbn [bind Ok].
    rewrite He0. change (getitem [R; C] 0) with (@Ok Z R). cbn [bind Ok].
    fold N. rewrite E1. cbn [bind Ok].
    rewrite (sum_expr_same_shape (t0 :: new') t0 new' [N * R; C]) by (reflexivity || assumption).
    reflexivity. }
  split.
  { rewrite eval_Sum, E4. cbn [obind]. rewrite Er. cbn [obind].
    now apply with_shape_same. }
  assert (HNpos : 1 <= N) by (unfold N; rewrite Zlen_cons; pose proof (Zlen_nonneg rest); lia).
  split; [assumption|].
  split; [unfold Zlen; rewrite Hrn; nia|].
  intros q i j Hq Hi Hj.
  unfold nd_get at 1. rewrite Hrs, Hr.
  rewrite (map_ext_in _ (fun a => nd_get a (q * N + i) j)).
  - rewrite E7 by nia.
    destruct (div_mod_of_stride N q i (q * N + i)) as [Hm Hd]; [lia | lia |].
    rewrite Hm, Hd. fold N.
    destruct (Z.leb_spec 0 i); [|lia]. destruct (Z.ltb_spec i (0 + N)); [|lia].
    cbn [andb]. now replace (i - 0) with i by lia.
  - intros a Ha. rewrite Forall_forall in E6. destruct (E6 a Ha) as [Hsa _].
    unfold nd_get. now rewrite Hsa.
Qed.

(** X8: for N >= 1 expressions that all have shape (R, C) and values
    v0..v_{N-1}, [format_elemwise] returns one constraint whose
    expression evaluates to an array of shape (N*R, C) in which row
    r*N + i is row r of v_i, in every column. *)
Theorem format_elemwise_interleaves_rows (env : Z -> option ndarray)
        (vars_ : list LinOp) (vals : list ndarray) (R C : Z) :
  vars_ <> [] -> 0 <= R -> 0 <= C ->
  Forall2 (fun e v => shape e = [R; C] /\ eval env e = Some v) vars_ vals ->
  exists total out,
    format_elemwise vars_ = Ok [Geq total] /\
    eval env total = Some out /\
    nd_shape out = [Zlen vars_ * R; C] /\
    Zlen (nd_data out) = Zlen vars_ * R * C /\
    forall r i j, 0 <= r < R -> 0 <= i < Zlen vars_ -> 0 <= j < C ->
      nd_get out (r * Zlen vars_ + i) j
      = nd_get (nth (Z.to_nat i) vals (mk_ndarray [] [])) r j.
Proof. exact (format_elemwise_rows_layout env vars_ vals R C). Qed.

Lemma format_elemwise_interleaves_rows_witness :
  exists total out,
    format_elemwise [axis_X; axis_X] = Ok [Geq total] /\
    eval axis_env total = Some out /\
    nd_shape out = [Zlen [axis_X; axis_X] * 2; 2] /\
    Zlen (nd_data out) = Zlen [axis_X; axis_X] * 2 * 2 /\
    forall r i j, 0 <= r < 2 -> 0 <= i < Zlen [axis_X; axis_X] -> 0 <= j < 2 ->
      nd_get out (r * Zlen [axis_X; axis_X] + i) j
      = nd_get (nth (Z.to_nat i)
                    [mk_ndarray [2; 2] [1; 2; 3; 4]; mk_ndarray [2; 2] [1; 2; 3; 4]]
                    (mk_ndarray [] [])) r j.
Proof.
  apply (format_elemwise_interleaves_rows axis_env [axis_X; axis_X]
           [mk_ndarray [2; 2] [1; 2; 3; 4]; mk_ndarray [2; 2] [1; 2; 3; 4]] 2 2).
  - discriminate.
  - lia.
  - lia.
  - repeat constructor.
Defined.

Lemma mul_expr_inv (l r op : LinOp) :
  lu.mul_expr l r = Ok op -> exists s, op = Multiply l r s.
Proof.
  rewrite mul_expr_mul_shape.
  destruct (mul_shape (shape l) (shape r)) as [s|]; [|discriminate].
  intros H. inversion H. now exists s.
Qed.

Lemma elemwise_terms_inv (ms : list Z) (N : Z) (vars_ : list LinOp) :
  forall i0 acc terms,
  elemwise_terms ms N i0 vars_ acc = Ok terms ->
  exists new,
    terms = acc ++ new /\ length new = length vars_ /\
    forall n var, nth_error vars_ n = Some var ->
      exists mat s, get_spacing_matrix ms N (i0 + Z.of_nat n) = Ok mat /\
                    nth_error new n = Some (Multiply mat var s).
Proof.
  induction vars_ as [|e vars_ IH]; intros i0 acc terms H.
  - cbn [elemwise_terms] in H. inversion H. exists []. rewrite app_nil_r.
    repeat split. intros [|n] var Hn; discriminate.
  - cbn [elemwise_terms] in H.
    destruct (get_spacing_matrix ms N i0) as [err|mat] eqn:Eg; [discriminate|].
    cbn [bind] in H.
    destruct (lu.mul_expr mat e) as [err|term] eqn:Em; [discriminate|].
    cbn [bind] in H.
    destruct (mul_expr_inv mat e term Em) as [s ->].
    destruct (IH (i0 + 1) (acc ++ [Multiply mat e s]) terms H) as [new [-> [Hl Hn]]].
    exists (Multiply mat e s :: new).
    split; [now rewrite <- app_assoc|]. split; [simpl; congruence|].
    intros [|n] var Hv.
    + cbn [nth_error] in Hv. inversion Hv. subst var.
      exists mat, s. replace (i0 + Z.of_nat 0) with i0 by lia. now split.
    + cbn [nth_error] in Hv. destruct (Hn n var Hv) as [mat' [s' [Hg Ht]]].
      exists mat', s'. replace (i0 + Z.of_nat (Datatypes.S n)) with (i0 + 1 + Z.of_nat n) by lia.
      now split.
Qed.

(** X9: whenever [format_elemwise] returns, it returns exactly one
    constraint over a sum with one product per expression, in the order
    of the input: with rows = vars_[0].shape[0] and N = len(vars_), the
    n-th operand is the spacing matrix of shape (N*rows, rows), stride
    N and offset n, times the n-th expression. *)
Theorem format_elemwise_terms_in_order (vars_ : list LinOp) (cs : list Constraint) :
  format_elemwise vars_ = Ok cs ->
  exists var0 rows0 terms s,
    getitem vars_ 0 = Ok var0 /\
    getitem (shape var0) 0 = Ok rows0 /\
    cs = [Geq (Sum terms s)] /\
    length terms = length vars_ /\
    forall n var, nth_error vars_ n = Some var ->
      exists mat s',
        get_spacing_matrix [Zlen vars_ * rows0; rows0] (Zlen vars_) (Z.of_nat n) = Ok mat /\
        nth_error terms n = Some (Multiply mat var s').
Proof.
  unfold format_elemwise.
  destruct (getitem vars_ 0) as [e|var0] eqn:E0; [discriminate|]. cbn [bind].
  destruct (getitem (shape var0) 0) as [e|rows0] eqn:E1; [discriminate|]. cbn [bind].
  destruct (elemwise_terms _ _ 0 vars_ []) as [e|terms] eqn:Et; [discriminate|].
  cbn [bind].
  destruct (lu.sum_expr terms) as [e|total] eqn:Es; [discriminate|]. cbn [bind].
  intros H. inversion H. subst cs. clear H.
  destruct (elemwise_terms_inv _ _ vars_ 0 [] terms Et) as [new [Hn [Hl Hnth]]].
  cbn [app] in Hn. subst new.
  unfold lu.sum_expr in Es.
  destruct (getitem terms 0) as [e|first]; [discriminate|]. cbn [bind] in Es.
  destruct (forallb _ terms); [|discriminate]. inversion Es.
  exists var0, rows0, terms, (shape first).
  split; [reflexivity|]. split; [exact E1|].
  split; [reflexivity|]. split; [assumption|].
  intros n var Hv. destruct (Hnth n var Hv) as [mat [s' [Hg Ht]]].
  exists mat, s'. now split.
Qed.

Lemma format_elemwise_terms_in_order_witness :
  exists var0 rows0 terms s,
    getitem elemwise_vars 0 = Ok var0 /\
    getitem (shape var0) 0 = Ok rows0 /\
    [Geq (Sum [Multiply (SparseConstant (mk_spmatrix CSC [4; 2] [1; 1] [0; 2] [0; 1]) [4; 2])
                        (Var 0 [2; 1]) [4; 1];
               Multiply (SparseConstant (mk_spmatrix CSC [4; 2] [1; 1] [1; 3] [0; 1]) [4; 2])
                        (Var 1 [2; 1]) [4; 1]] [4; 1])]
    = [Geq (Sum terms s)] /\
    length terms = length elemwise_vars /\
    forall n var, nth_error elemwise_vars n = Some var ->
      exists mat s',
        get_spacing_matrix [Zlen elemwise_vars * rows0; rows0] (Zlen elemwise_vars)
                           (Z.of_nat n) = Ok mat /\
        nth_error terms n = Some (Multiply mat var s').
Proof. apply (format_elemwise_terms_in_order elemwise_vars). reflexivity. Defined.

(** X10: when the first expression has a shape with a non-negative row
    count, every spacing matrix [format_elemwise] asks for is accepted
    by the sparse constructor: the call returns one constraint or stops
    on a [ShapeMismatch] of the composition functions, and raises
    neither [ValueError] nor [IndexError]. *)
Theorem format_elemwise_outcome (e0 : LinOp) (rest : list LinOp)
        (rows0 : Z) (dims0 : list Z) :
  shape e0 = rows0 :: dims0 -> 0 <= rows0 ->
  (exists total, format_elemwise (e0 :: rest) = Ok [Geq total]) \/
  format_elemwise (e0 :: rest) = Err ShapeMismatch.
Proof.
  intros He0 HR. unfold format_elemwise.
  change (getitem (e0 :: rest) 0) with (@Ok LinOp e0). cbn [bind Ok].
  rewrite He0. change (getitem (rows0 :: dims0) 0) with (@Ok Z rows0). cbn [bind Ok].
  set (N := Zlen (e0 :: rest)).
  destruct (elemwise_terms_shapes N rows0 (e0 :: rest) HR 0 [])
    as [E|[new [E HF]]]; [lia | unfold N; lia | right; now rewrite E |].
  rewrite E. cbn [app bind Ok].
  inversion HF as [|? t0 ? new' H0 HF']; subst.
  unfold lu.sum_expr. change (getitem (t0 :: new') 0) with (@Ok LinOp t0). cbn [bind Ok].
  destruct (forallb _ _); [left | right; reflexivity].
  eexists. reflexivity.
Qed.

Lemma format_elemwise_outcome_witness :
  (exists total, format_elemwise (Var 0 [2; 1] :: [Var 1 [2; 1]]) = Ok [Geq total]) \/
  format_elemwise (Var 0 [2; 1] :: [Var 1 [2; 1]]) = Err ShapeMismatch.
Proof.
  apply (format_elemwise_outcome (Var 0 [2; 1]) [Var 1 [2; 1]] 2 [1]); [reflexivity | lia].
Defined.

(** X11: on a single expression of shape (R, C) the spacing matrix is
    the identity, and the expression of the returned constraint has the
    value of the expression itself. *)
Theorem format_elemwise_single (env : Z -> option ndarray) (e : LinOp) (v : ndarray)
        (R C : Z) :
  0 <= R -> 0 <= C -> shape e = [R; C] -> eval env e = Some v ->
  Zlen (nd_data v) = R * C ->
  exists total, format_elemwise [e] = Ok [Geq total] /\ eval env total = Some v.
Proof.
  intros HR HC He Ev Hlen.
  destruct (format_elemwise_rows_layout env [e] [v] R C)
    as [total [out [E1 [E2 [E3 [E4 E5]]]]]];
    [discriminate | assumption | assumption | repeat constructor; assumption |].
  exists total. split; [assumption|]. rewrite E2. f_equal.
  pose proof (eval_shape env e v Ev) as Hs. rewrite He in Hs.
  destruct out as [so dout]. destruct v as [sv dv].
  cbn [nd_shape nd_data] in *. subst so sv.
  change (Zlen [e]) with 1 in *.
  f_equal; [f_equal; lia|].
  apply (nth_ext dout dv 0 0).
  - unfold Zlen in *. lia.
  - intros n Hn.
    assert (Hp : 0 <= Z.of_nat n < R * C) by (unfold Zlen in E4; lia).
    assert (HRpos : 0 < R) by nia.
    assert (Hr : 0 <= Z.of_nat n mod R < R) by (apply Z.mod_pos_bound; lia).
    assert (Hj : 0 <= Z.of_nat n / R < C).
    { split; [apply Z.div_pos; lia | apply Z.div_lt_upper_bound; lia]. }
    pose proof (Z.div_mod (Z.of_nat n) R ltac:(lia)) as Hdm.
    specialize (E5 (Z.of_nat n mod R) 0 (Z.of_nat n / R) Hr ltac:(lia) Hj).
    unfold nd_get, nd_nth in E5. cbn [nd_shape nd_data Z.to_nat nth] in E5.
    replace (Z.to_nat (Z.of_nat n / R * (1 * R) + (Z.of_nat n mod R * 1 + 0))) with n in E5
      by nia.
    replace (Z.to_nat (Z.of_nat n / R * R + Z.of_nat n mod R)) with n in E5 by nia.
    exact E5.
Qed.

Lemma format_elemwise_single_witness :
  exists total,
    format_elemwise [axis_X] = Ok [Geq total] /\
    eval axis_env total = Some (mk_ndarray [2; 2] [1; 2; 3; 4]).
Proof.
  apply (format_elemwise_single axis_env axis_X (mk_ndarray [2; 2] [1; 2; 3; 4]) 2 2);
    (lia || reflexivity).
Defined.

(** ** [format_axis]: outcome, selectors and layouts *)

Lemma coo_leader_ok (x_rows : Z) :
  0 <= x_rows ->
  coo_matrix [1] [0] [0] [1 + x_rows; 1] = Ok (mk_spmatrix COO [1 + x_rows; 1] [1] [0] [0]).
Proof.
  intros H. unfold coo_matrix.
  replace ((0 <=? 1 + x_rows) && (0 <=? 1)) with true
    by (symmetry; apply andb_true_iff; split; apply Z.leb_le; lia).
  cbn [negb length Nat.eqb andb all_in_range forallb].
  replace ((0 <=? 0) && (0 <? 1 + x_rows)) with true
    by (symmetry; apply andb_true_iff; split; [apply Z.leb_le | apply Z.ltb_lt]; lia).
  reflexivity.
Qed.

Lemma coo_shift_ok (x_rows : Z) :
  0 <= x_rows ->
  coo_matrix (replicate (1 + x_rows - 1) 1) (range2 1 (1 + x_rows)) (range (1 + x_rows - 1))
             [1 + x_rows; x_rows]
  = Ok (mk_spmatrix COO [1 + x_rows; x_rows]
          (replicate (1 + x_rows - 1) 1) (range2 1 (1 + x_rows)) (range (1 + x_rows - 1))).
Proof.
  intros H. unfold coo_matrix.
  replace ((0 <=? 1 + x_rows) && (0 <=? x_rows)) with true
    by (symmetry; apply andb_true_iff; split; apply Z.leb_le; lia).
  assert (L1 : length (range2 1 (1 + x_rows)) = length (replicate (1 + x_rows - 1) 1)).
  { unfold range2, replicate. now rewrite length_map, length_range, repeat_length. }
  assert (L2 : length (range (1 + x_rows - 1)) = length (replicate (1 + x_rows - 1) 1)).
  { unfold replicate. now rewrite length_range, repeat_length. }
  rewrite L1, L2, Nat.eqb_refl. cbn [negb andb].
  assert (R : all_in_range (range2 1 (1 + x_rows)) (1 + x_rows) = true).
  { apply all_in_range_spec. intros x Hx. unfold range2 in Hx. apply in_map_iff in Hx.
    destruct Hx as [c [<- Hc]]. apply In_range in Hc. lia. }
  assert (C : all_in_range (range (1 + x_rows - 1)) x_rows = true).
  { apply all_in_range_spec. intros x Hx. apply In_range in Hx. lia. }
  rewrite R, C. reflexivity.
Qed.

Lemma leader_row_outcome (t : LinOp) :
  (exists len, leader_row t = Ok (Reshape t [1; len])) \/ leader_row t = Err ShapeMismatch.
Proof.
  unfold leader_row, lu.reshape.
  destruct (shape t) as [|a s] eqn:E; cbn [is_empty].
  - left. exists 1. reflexivity.
  - change (getitem (a :: s) 0) with (@Ok Z a). cbn [bind Ok].
    destruct (_ =? _); [left; now exists a | now right].
Qed.

(** X12: when X (after the transposition of axis 1) has a shape with a
    non-negative row count, both selector matrices of [format_axis] are
    accepted by the sparse constructor: the call returns one constraint
    or stops on a [ShapeMismatch] of the composition functions, and
    raises neither [ValueError] nor [IndexError]. *)
Theorem format_axis_outcome (t X : LinOp) (axis x_rows : Z) (dims : list Z) :
  shape (if axis =? 1 then lu.transpose X else X) = x_rows :: dims -> 0 <= x_rows ->
  (exists total, format_axis t X axis = Ok [Geq total]) \/
  format_axis t X axis = Err ShapeMismatch.
Proof.
  intros HX Hr. unfold format_axis.
  set (X' := if axis =? 1 then lu.transpose X else X) in *.
  rewrite HX. change (getitem (x_rows :: dims) 0) with (@Ok Z x_rows). cbn [bind Ok].
  rewrite coo_leader_ok by assumption. cbn [bind Ok].
  destruct (leader_row_outcome t) as [[len ->]| ->]; [|now right]. cbn [bind Ok].
  rewrite mul_expr_mul_shape.
  destruct (mul_shape _ _) as [s1|]; [|now right]. cbn [bind Ok app].
  rewrite coo_shift_ok by assumption. cbn [bind Ok].
  rewrite mul_expr_mul_shape.
  destruct (mul_shape _ _) as [s2|]; [|now right]. cbn [bind Ok app].
  unfold lu.sum_expr.
  match goal with
  | |- context [getitem (?a :: ?l) 0] => change (getitem (a :: l) 0) with (@Ok LinOp a)
  end.
  cbn [bind Ok].
  destruct (forallb _ _); [left; eexists; reflexivity | now right].
Qed.

Lemma format_axis_outcome_witness :
  (exists total, format_axis axis_t axis_X 1 = Ok [Geq total]) \/
  format_axis axis_t axis_X 1 = Err ShapeMismatch.
Proof. apply (format_axis_outcome axis_t axis_X 1 2 [2]); [reflexivity | lia]. Defined.

(** X13: whenever [format_axis] returns, the first operand of the sum
    multiplies the reshaped leader by a matrix of shape (1 + rows, 1)
    whose only non-zero entry is a 1 at (0, 0), and the second operand
    multiplies X (transposed for axis 1) by a matrix of shape
    (1 + rows, rows) whose entry (i, k) is 1 exactly when i = 1 + k: the
    identity shifted down by one row. *)
Theorem format_axis_selectors (t X : LinOp) (axis : Z) (cs : list Constraint) :
  format_axis t X axis = Ok cs ->
  exists x_rows t_mat X_mat t_vec s1 s2 s,
    getitem (shape (if axis =? 1 then lu.transpose X else X)) 0 = Ok x_rows /\
    leader_row t = Ok t_vec /\
    cs = [Geq (Sum [Multiply (SparseConstant t_mat [1 + x_rows; 1]) t_vec s1;
                    Multiply (SparseConstant X_mat [1 + x_rows; x_rows])
                             (if axis =? 1 then lu.transpose X else X) s2] s)] /\
    (forall i k, sp_get t_mat i k = if (i =? 0) && (k =? 0) then 1 else 0) /\
    (forall i k, sp_get X_mat i k =
                 if (0 <=? k) && (k <? x_rows) && (i =? 1 + k) then 1 else 0).
Proof.
  intros H.
  destruct (format_axis_inv t X axis cs H) as [x_rows [t_vec [s1 [s2 [s [Hg [Hl ->]]]]]]].
  exists x_rows, (leader_csc (1 + x_rows)), (shift_csc (1 + x_rows) x_rows), t_vec, s1, s2, s.
  split; [exact Hg|]. split; [exact Hl|]. split; [reflexivity|].
  split.
  - intros i k. apply sp_get_leader_csc.
  - intros i k. rewrite sp_get_shift_csc.
    now replace (1 + x_rows - 1) with x_rows by lia.
Qed.

Lemma format_axis_selectors_witness :
  exists x_rows t_mat X_mat t_vec s1 s2 s,
    getitem (shape (if 0 =? 1 then lu.transpose axis_X else axis_X)) 0 = Ok x_rows /\
    leader_row axis_t = Ok t_vec /\
    [Geq (Sum [Multiply (SparseConstant (leader_csc 3) [3; 1]) (Reshape axis_t [1; 2]) [3; 2];
               Multiply (SparseConstant (shift_csc 3 2) [3; 2]) axis_X [3; 2]] [3; 2])]
    = [Geq (Sum [Multiply (SparseConstant t_mat [1 + x_rows; 1]) t_vec s1;
                 Multiply (SparseConstant X_mat [1 + x_rows; x_rows])
                          (if 0 =? 1 then lu.transpose axis_X else axis_X) s2] s)] /\
    (forall i k, sp_get t_mat i k = if (i =? 0) && (k =? 0) then 1 else 0) /\
    (forall i k, sp_get X_mat i k =
                 if (0 <=? k) && (k <? x_rows) && (i =? 1 + k) then 1 else 0).
Proof. apply (format_axis_selectors axis_t axis_X 0). reflexivity. Defined.

(** The layout of [format_axis] for a leader row of value [tv]. *)
Lemma format_axis_layout (env : Z -> option ndarray) (t X r : LinOp) (axis m m_rows : Z)
      (tv : list Z) (Xv : ndarray) :
  0 <= m -> 0 <= m_rows ->
  shape (if axis =? 1 then lu.transpose X else X) = [m_rows; m] ->
  leader_row t = Ok r -> shape r = [1; m] ->
  eval env r = Some (mk_ndarray [1; m] tv) ->
  eval env (if axis =? 1 then lu.transpose X else X) = Some Xv ->
  exists total out,
    format_axis t X axis = Ok [Geq total] /\
    eval env total = Some out /\
    nd_shape out = [1 + m_rows; m] /\
    Zlen (nd_data out) = (1 + m_rows) * m /\
    forall j, 0 <= j < m ->
      nd_get out 0 j = nth (Z.to_nat j) tv 0 /\
      forall i, 0 <= i < m_rows -> nd_get out (1 + i) j = nd_get Xv i j.
Proof.
  intros Hm Hr HX Hl Hrs Er EX.
  set (X' := if axis =? 1 then lu.transpose X else X) in *.
  pose proof (eval_shape env X' Xv EX) as HXv. rewrite HX in HXv.
  set (cone := 1 + m_rows).
  set (A := tabulate cone m (fun i j =>
              Zsum (map (fun k => nd_get (tabulate cone 1 (sp_get (leader_csc cone))) i k
                                  * nd_get (mk_ndarray [1; m] tv) k j) (range 1)))).
  set (B := tabulate cone m (fun i j =>
              Zsum (map (fun k => nd_get (tabulate cone m_rows
                                            (sp_get (shift_csc cone m_rows))) i k
                                  * nd_get Xv k j)
                        (range m_rows)))).
  destruct (nd_sum_spec [cone; m] (Z.to_nat (cone * m)) [A; B])
    as [out [Eo [Hos [Hon Ho]]]].
  { discriminate. }
  { repeat constructor; apply length_tabulate. }
  exists (Sum [Multiply (SparseConstant (leader_csc cone) [cone; 1]) r [cone; m];
               Multiply (SparseConstant (shift_csc cone m_rows) [cone; m_rows]) X' [cone; m]]
              [cone; m]), out.
  split.
  { unfold format_axis. fold X'. rewrite HX.
    change (getitem [m_rows; m] 0) with (@Ok Z m_rows). cbn [bind Ok].
    rewrite coo_leader_ok by assumption. cbn [bind Ok]. rewrite Hl. cbn [bind Ok].
    rewrite (mul_expr_2d _ r (1 + m_rows) 1 m) by (reflexivity || assumption).
    cbn [bind Ok app].
    rewrite coo_shift_ok by assumption. cbn [bind Ok].
    rewrite (mul_expr_2d _ X' (1 + m_rows) m_rows m) by (reflexivity || assumption).
    cbn [bind Ok].
    erewrite sum_expr_same_shape; [reflexivity | reflexivity |].
    repeat constructor. }
  split.
  { rewrite eval_Sum. cbn [eval_all].
    rewrite (eval_mul_sparse env (leader_csc cone) r (mk_ndarray [1; m] tv) cone 1 m)
      by (reflexivity || assumption).
    rewrite (eval_mul_sparse env (shift_csc cone m_rows) X' Xv cone m_rows m)
      by (reflexivity || assumption).
    cbn [obind]. fold A B. rewrite Eo. cbn [obind]. now apply with_shape_same. }
  split; [assumption|].
  split; [unfold Zlen; rewrite Hon; unfold cone; nia|].
  assert (E : forall i j, 0 <= i < cone -> 0 <= j < m ->
            nd_get out i j = (if i =? 0 then nth (Z.to_nat j) tv 0 else 0)
                             + (if i =? 0 then 0 else nd_get Xv (i - 1) j)).
  { intros i j Hi Hj. unfold nd_get at 1. rewrite Hos, Ho.
    cbn [map Zsum fold_right].
    change (nd_nth A (j * cone + i)) with (nd_get A i j).
    change (nd_nth B (j * cone + i)) with (nd_get B i j).
    unfold A, B. rewrite !nd_get_tabulate by assumption.
    rewrite leader_term_entry by assumption.
    unfold cone. rewrite shift_term_entry by (assumption || lia). lia. }
  intros j Hj. split.
  - rewrite E by (unfold cone; lia). cbn [Z.eqb]. lia.
  - intros i Hi. rewrite E by (unfold cone; lia).
    destruct (Z.eqb_spec (1 + i) 0); [lia|].
    now replace (1 + i - 1) with i by lia.
Qed.

(** X14: with axis 1 the cones are the rows of X. For a 1-D leader t of
    length m and X of shape (m, n), [format_axis(t, X, 1)] returns one
    constraint whose expression evaluates to an array of shape
    (1 + n, m) whose column j is t_j above row j of X. *)
Theorem format_axis_stacks_rows (env : Z -> option ndarray) (t X : LinOp)
        (tv : list Z) (Xv : ndarray) (m n : Z) :
  0 <= m -> 0 <= n ->
  shape t = [m] -> shape X = [m; n] ->
  eval env t = Some (mk_ndarray [m] tv) ->
  eval env X = Some Xv ->
  exists total out,
    format_axis t X 1 = Ok [Geq total] /\
    eval env total = Some out /\
    nd_shape out = [1 + n; m] /\
    forall j, 0 <= j < m ->
      nd_get out 0 j = nth (Z.to_nat j) tv 0 /\
      forall i, 0 <= i < n -> nd_get out (1 + i) j = nd_get Xv j i.
Proof.
  intros Hm Hn Ht HX Et EX.
  pose proof (eval_shape env X Xv EX) as HXv. rewrite HX in HXv.
  assert (Hl : leader_row t = Ok (Reshape t [1; m])).
  { unfold leader_row, lu.reshape. rewrite Ht. cbn [is_empty].
    change (getitem [m] 0) with (@Ok Z m). cbn [bind Ok].
    replace (numel [m] =? numel [1; m]) with true; [reflexivity|].
    symmetry. apply Z.eqb_eq. unfold numel. cbn [fold_right]. lia. }
  assert (Er : eval env (Reshape t [1; m]) = Some (mk_ndarray [1; m] tv)).
  { cbn [eval]. rewrite Et. cbn [obind]. unfold nd_reshape. cbn [nd_shape nd_data].
    replace (numel [m] =? numel [1; m]) with true; [reflexivity|].
    symmetry. apply Z.eqb_eq. unfold numel. cbn [fold_right]. lia. }
  assert (ET : eval env (lu.transpose X)
               = Some (tabulate n m (fun i j => nd_get Xv j i))).
  { unfold lu.transpose. rewrite HX. cbn [rev app eval]. rewrite EX. cbn [obind].
    unfold nd_transpose. rewrite HXv. cbn [obind]. now apply with_shape_same. }
  destruct (format_axis_layout env t X (Reshape t [1; m]) 1 m n tv
              (tabulate n m (fun i j => nd_get Xv j i)))
    as [total [out [E1 [E2 [E3 [_ E5]]]]]]; try assumption.
  { cbn [Z.eqb]. unfold lu.transpose. rewrite HX. reflexivity. }
  { reflexivity. }
  exists total, out.
  split; [assumption|]. split; [assumption|]. split; [assumption|].
  intros j Hj. destruct (E5 j Hj) as [E6 E7]. split; [exact E6|].
  intros i Hi. rewrite E7 by assumption.
  now rewrite (nd_get_tabulate n m (fun a b => nd_get Xv b a)).
Qed.

Lemma format_axis_stacks_rows_witness :
  exists total out,
    format_axis axis_t axis_X 1 = Ok [Geq total] /\
    eval axis_env total = Some out /\
    nd_shape out = [1 + 2; 2] /\
    forall j, 0 <= j < 2 ->
      nd_get out 0 j = nth (Z.to_nat j) [5; 6] 0 /\
      forall i, 0 <= i < 2 ->
        nd_get out (1 + i) j = nd_get (mk_ndarray [2; 2] [1; 2; 3; 4]) j i.
Proof.
  apply (format_axis_stacks_rows axis_env axis_t axis_X [5; 6]
           (mk_ndarray [2; 2] [1; 2; 3; 4]) 2 2); (lia || reflexivity).
Defined.

(** X15: a scalar leader (shape ()) with a single cone, X of shape
    (n, 1): [format_axis(t, X, 0)] returns one constraint whose
    expression evaluates to the column of length 1 + n holding the
    leader's value above the column of X. *)
Theorem format_axis_scalar_leader_column (env : Z -> option ndarray) (t X : LinOp)
        (v : Z) (Xv : ndarray) (n : Z) :
  0 <= n -> shape t = [] -> shape X = [n; 1] ->
  eval env t = Some (mk_ndarray [] [v]) ->
  eval env X = Some Xv ->
  exists total out,
    format_axis t X 0 = Ok [Geq total] /\
    eval env total = Some out /\
    nd_shape out = [1 + n; 1] /\
    Zlen (nd_data out) = 1 + n /\
    nd_get out 0 0 = v /\
    forall i, 0 <= i < n -> nd_get out (1 + i) 0 = nd_get Xv i 0.
Proof.
  intros Hn Ht HX Et EX.
  assert (Hl : leader_row t = Ok (Reshape t [1; 1])).
  { unfold leader_row, lu.reshape. rewrite Ht. reflexivity. }
  assert (Er : eval env (Reshape t [1; 1]) = Some (mk_ndarray [1; 1] [v])).
  { cbn [eval]. rewrite Et. reflexivity. }
  destruct (format_axis_layout env t X (Reshape t [1; 1]) 0 1 n [v] Xv)
    as [total [out [E1 [E2 [E3 [E4 E5]]]]]]; try assumption; try reflexivity; try lia.
  exists total, out.
  destruct (E5 0 ltac:(lia)) as [E6 E7].
  repeat split; try assumption; lia.
Qed.

Lemma format_axis_scalar_leader_column_witness :
  exists total out,
    format_axis (Var 0 []) (Var 1 [2; 1]) 0 = Ok [Geq total] /\
    eval (env_of [(0, mk_ndarray [] [5]); (1, mk_ndarray [2; 1] [3; 4])]) total = Some out /\
    nd_shape out = [1 + 2; 1] /\
    Zlen (nd_data out) = 1 + 2 /\
    nd_get out 0 0 = 5 /\
    forall i, 0 <= i < 2 -> nd_get out (1 + i) 0 = nd_get (mk_ndarray [2; 1] [3; 4]) i 0.
Proof.
  apply (format_axis_scalar_leader_column
           (env_of [(0, mk_ndarray [] [5]); (1, mk_ndarray [2; 1] [3; 4])])
           (Var 0 []) (Var 1 [2; 1]) 5 (mk_ndarray [2; 1] [3; 4]) 2); (lia || reflexivity).
Defined.

(** X16: only [t.shape[0]] is read from a leader that has a shape, so a
    column leader of shape (m, 1) is laid out like a 1-D leader of
    length m: with X of shape (n, m), column j of the result is t_j
    above column j of X. *)
Theorem format_axis_column_leader (env : Z -> option ndarray) (t X : LinOp)
        (tv : list Z) (Xv : ndarray) (m n : Z) :
  0 <= m -> 0 <= n ->
  shape t = [m; 1] -> shape X = [n; m] ->
  eval env t = Some (mk_ndarray [m; 1] tv) ->
  eval env X = Some Xv ->
  exists total out,
    format_axis t X 0 = Ok [Geq total] /\
    eval env total = Some out /\
    nd_shape out = [1 + n; m] /\
    forall j, 0 <= j < m ->
      nd_get out 0 j = nth (Z.to_nat j) tv 0 /\
      forall i, 0 <= i < n -> nd_get out (1 + i) j = nd_get Xv i j.
Proof.
  intros Hm Hn Ht HX Et EX.
  assert (Hnum : (numel [m; 1] =? numel [1; m]) = true).
  { apply Z.eqb_eq. unfold numel. cbn [fold_right]. lia. }
  assert (Hl : leader_row t = Ok (Reshape t [1; m])).
  { unfold leader_row, lu.reshape. rewrite Ht. cbn [is_empty].
    change (getitem [m; 1] 0) with (@Ok Z m). cbn [bind Ok].
    now rewrite Hnum. }
  assert (Er : eval env (Reshape t [1; m]) = Some (mk_ndarray [1; m] tv)).
  { cbn [eval]. rewrite Et. cbn [obind]. unfold nd_reshape. cbn [nd_shape nd_data].
    now rewrite Hnum. }
  destruct (format_axis_layout env t X (Reshape t [1; m]) 0 m n tv Xv)
    as [total [out [E1 [E2 [E3 [_ E5]]]]]]; try assumption; try reflexivity.
  exists total, out. repeat split; try assumption; now apply E5.
Qed.

Lemma format_axis_column_leader_witness :
  exists total out,
    format_axis (Var 0 [2; 1]) axis_X 0 = Ok [Geq total] /\
    eval (env_of [(0, mk_ndarray [2; 1] [5; 6]); (1, mk_ndarray [2; 2] [1; 2; 3; 4])]) total
      = Some out /\
    nd_shape out = [1 + 2; 2] /\
    forall j, 0 <= j < 2 ->
      nd_get out 0 j = nth (Z.to_nat j) [5; 6] 0 /\
      forall i, 0 <= i < 2 ->
        nd_get out (1 + i) j = nd_get (mk_ndarray [2; 2] [1; 2; 3; 4]) i j.
Proof.
  apply (format_axis_column_leader
           (env_of [(0, mk_ndarray [2; 1] [5; 6]); (1, mk_ndarray [2; 2] [1; 2; 3; 4])])
           (Var 0 [2; 1]) axis_X [5; 6] (mk_ndarray [2; 2] [1; 2; 3; 4]) 2 2);
    (lia || reflexivity).
Defined.

(** * Unchecked arguments, mismatches and scalar leaders *)

(** ** Stride and offset of either numeric type *)

Lemma spacing_arrays_num_eq (cols : Z) (spacing offset : number) :
  spacing_arrays_num cols spacing offset =
  (map (fun _ => 1) (range cols),
   map (fun c => num_add (num_mul spacing (PyInt c)) offset) (range cols),
   range cols).
Proof.
  unfold spacing_arrays_num.
  assert (G : forall l va ra ca,
    fold_left
      (fun '(val_arr, row_arr, col_arr) var_row =>
         (val_arr ++ [1],
          row_arr ++ [num_add (num_mul spacing (PyInt var_row)) offset],
          col_arr ++ [var_row]))
      l (va, ra, ca)
    = (va ++ map (fun _ => 1) l,
       ra ++ map (fun c => num_add (num_mul spacing (PyInt c)) offset) l,
       ca ++ l)).
  { induction l as [|x l IH]; intros va ra ca; simpl.
    - now rewrite !app_nil_r.
    - rewrite IH, <- !app_assoc. reflexivity. }
  apply G.
Qed.

(** On integers the numeric reading is [get_spacing_matrix] itself. *)
Lemma get_spacing_matrix_num_int (s : list Z) (spacing offset : Z) :
  get_spacing_matrix_num s (PyInt spacing) (PyInt offset)
  = get_spacing_matrix s spacing offset.
Proof.
  unfold get_spacing_matrix_num, get_spacing_matrix.
  destruct (getitem s 1) as [e|cols]; [reflexivity|]. cbn [bind].
  rewrite spacing_arrays_num_eq, spacing_arrays_eq.
  unfold coo_matrix_num. rewrite map_map. reflexivity.
Qed.

Lemma get_spacing_matrix_num_error (s : list Z) (spacing offset : number) (e : error) :
  get_spacing_matrix_num s spacing offset = Err e ->
  e = IndexError \/ e = ValueError \/ e = OverflowError.
Proof.
  unfold get_spacing_matrix_num.
  destruct (getitem s 1) as [e1|cols] eqn:E1.
  - apply getitem_error in E1. subst e1. intros H. inversion H. auto.
  - cbn [bind]. destruct (spacing_arrays_num cols spacing offset) as [[va ra] ca].
    unfold coo_matrix_num.
    destruct (coo_matrix va _ ca s) as [e2|m] eqn:E2; [|discriminate].
    apply coo_matrix_error in E2. intros H. inversion H. subst e. tauto.
Qed.

Lemma get_spacing_matrix_num_ok (rows cols : Z) (spacing offset : number) :
  0 <= rows -> 0 <= cols ->
  (forall c, 0 <= c < cols ->
     0 <= to_index (index_bound [rows; cols]) (num_add (num_mul spacing (PyInt c)) offset)
       < rows) ->
  exists m, get_spacing_matrix_num [rows; cols] spacing offset
            = Ok (SparseConstant m [rows; cols]).
Proof.
  intros Hr Hc Hin. unfold get_spacing_matrix_num.
  rewrite (getitem_nth [rows; cols] 1 cols) by (reflexivity || lia).
  cbn [bind Ok]. rewrite spacing_arrays_num_eq. unfold coo_matrix_num.
  rewrite coo_matrix_ok; [eexists; reflexivity | assumption | assumption | | | |].
  - now rewrite !length_map.
  - now rewrite length_map.
  - apply all_in_range_spec. intros x Hx. rewrite map_map in Hx.
    apply in_map_iff in Hx. destruct Hx as [c [<- Hc']]. apply Hin. now apply In_range.
  - apply all_in_range_spec. intros x Hx. now apply In_range.
Qed.




(** ** Mismatched shapes in [format_elemwise], by first expression *)

(** C6, counterexample: the two expressions have different shapes, the
    first one the empty shape (); the call fails with the [IndexError]
    of [vars_[0].shape[0]], not with [ShapeMismatch]. *)
Lemma format_elemwise_scalar_mismatch_index_error :
  shape (Var 0 []) <> shape (Var 1 [2; 1]) /\
  format_elemwise [Var 0 []; Var 1 [2; 1]] = Err IndexError /\
  format_elemwise [Var 0 []; Var 1 [2; 1]] <> Err ShapeMismatch.
Proof. split; [discriminate|]. split; [reflexivity | discriminate]. Qed.

(** C6, amended: when the expressions given to [format_elemwise] do not
    all have the shape of the first one, no constraint is returned. If
    the first expression has a shape with a row count, the call fails
    with the [ShapeMismatch] of the composition functions [lu.mul_expr]
    and [lu.sum_expr]; if the first expression has the empty shape (),
    it fails with the [IndexError] of [vars_[0].shape[0]]. *)
Theorem format_elemwise_shape_mismatch (e0 : LinOp) (rest : list LinOp) :
  Exists (fun e => shape e <> shape e0) rest ->
  (forall rows0 dims0, shape e0 = rows0 :: dims0 -> 0 <= rows0 ->
     format_elemwise (e0 :: rest) = Err ShapeMismatch) /\
  (shape e0 = [] -> format_elemwise (e0 :: rest) = Err IndexError).
Proof.
  intros Hex. split.
  - intros rows0 dims0 He0 HR.
    now apply (format_elemwise_mismatch_rows e0 rest rows0 dims0).
  - intros He0. unfold format_elemwise.
    change (getitem (e0 :: rest) 0) with (@Ok LinOp e0). cbn [bind Ok].
    rewrite He0. reflexivity.
Qed.

Lemma format_elemwise_shape_mismatch_witness :
  format_elemwise (Var 0 [2; 1] :: [Var 1 [3; 1]]) = Err ShapeMismatch.
Proof.
  apply (proj1 (format_elemwise_shape_mismatch (Var 0 [2; 1]) [Var 1 [3; 1]]
                 ltac:(constructor; discriminate)) 2 [1]).
  - reflexivity.
  - lia.
Defined.

(** ** Scalar and length-one leaders in [format_axis] *)

Lemma format_axis_returns (t X r : LinOp) (axis m m_rows : Z) :
  shape (if axis =? 1 then lu.transpose X else X) = [m_rows; m] -> 0 <= m_rows ->
  leader_row t = Ok r -> shape r = [1; m] ->
  format_axis t X axis =
  Ok [Geq (Sum [Multiply (SparseConstant (leader_csc (1 + m_rows)) [1 + m_rows; 1])
                         r [1 + m_rows; m];
                Multiply (SparseConstant (shift_csc (1 + m_rows) m_rows)
                                         [1 + m_rows; m_rows])
                         (if axis =? 1 then lu.transpose X else X) [1 + m_rows; m]]
               [1 + m_rows; m])].
Proof.
  intros HX Hr Hl Hrs. unfold format_axis.
  set (X' := if axis =? 1 then lu.transpose X else X) in *.
  rewrite HX. change (getitem [m_rows; m] 0) with (@Ok Z m_rows). cbn [bind Ok].
  rewrite coo_leader_ok by assumption. cbn [bind Ok]. rewrite Hl. cbn [bind Ok].
  rewrite (mul_expr_2d _ r (1 + m_rows) 1 m) by (reflexivity || assumption).
  cbn [bind Ok app].
  rewrite coo_shift_ok by assumption. cbn [bind Ok].
  rewrite (mul_expr_2d _ X' (1 + m_rows) m_rows m) by (reflexivity || assumption).
  cbn [bind Ok].
  erewrite sum_expr_same_shape; [reflexivity | reflexivity |].
  repeat constructor.
Qed.

(** Two leaders whose rows have the same shape give the same failure or
    trees that differ in the leader row only. *)
Lemma format_axis_leader_struct (t1 t2 X : LinOp) (axis : Z) (r1 r2 : LinOp) :
  leader_row t1 = Ok r1 -> leader_row t2 = Ok r2 -> shape r1 = shape r2 ->
  (exists e, format_axis t1 X axis = Err e /\ format_axis t2 X axis = Err e) \/
  (exists x_rows P s1 s,
     format_axis t1 X axis
     = Ok [Geq (Sum [Multiply (SparseConstant (leader_csc (1 + x_rows)) [1 + x_rows; 1])
                              r1 s1; P] s)] /\
     format_axis t2 X axis
     = Ok [Geq (Sum [Multiply (SparseConstant (leader_csc (1 + x_rows)) [1 + x_rows; 1])
                              r2 s1; P] s)]).
Proof.
  intros L1 L2 Hs. unfold format_axis. rewrite L1, L2.
  set (X' := if axis =? 1 then lu.transpose X else X).
  destruct (getitem (shape X') 0) as [e|x_rows]; [left; now exists e|]. cbn [bind].
  destruct (coo_matrix [1] [0] [0] _) as [e|tm] eqn:Et; [left; now exists e|].
  apply coo_matrix_inv in Et. subst tm. cbn [bind Ok].
  change (lu.create_const (tocsc (mk_spmatrix COO [1 + x_rows; 1] [1] [0] [0]))
                          [1 + x_rows; 1])
    with (SparseConstant (leader_csc (1 + x_rows)) [1 + x_rows; 1]).
  rewrite !mul_expr_mul_shape. cbn [shape]. rewrite Hs.
  destruct (mul_shape [1 + x_rows; 1] (shape r2)) as [s1|]; [|left; now exists ShapeMismatch].
  cbn [bind Ok app].
  destruct (coo_matrix _ _ _ _) as [e|xm]; [left; now exists e|]. cbn [bind].
  rewrite !mul_expr_mul_shape.
  match goal with
  | |- context [mul_shape ?a (shape X')] =>
      destruct (mul_shape a (shape X')) as [s2|]; [|left; now exists ShapeMismatch]
  end.
  cbn [bind Ok].
  unfold lu.sum_expr.
  match goal with
  | |- context [getitem (?a :: ?l) 0] => change (getitem (a :: l) 0) with (@Ok LinOp a)
  end.
  match goal with
  | |- context [getitem (?a :: ?l) 0] => change (getitem (a :: l) 0) with (@Ok LinOp a)
  end.
  cbn [bind Ok forallb shape].
  destruct (list_eqb s1 s1 && (list_eqb s2 s1 && true));
    [|left; now exists ShapeMismatch].
  right. cbn [bind Ok]. do 4 eexists. split; reflexivity.
Qed.

(** C5: a scalar leader (shape ()) and a leader of length one (shape
    (1,)) are both reshaped to (1, 1) and the row enters the
    leader-placement product. The two calls fail alike or return trees
    that are the same but for the leader under the reshape; on an X of
    one column (after the transposition of axis 1) both return their
    constraint; and when the leaders hold the same number the rows and
    the constraints have the same value. *)
Theorem format_axis_scalar_leader (env : Z -> option ndarray) (ts tv X : LinOp)
        (axis v : Z) :
  shape ts = [] -> shape tv = [1] ->
  eval env ts = Some (mk_ndarray [] [v]) ->
  eval env tv = Some (mk_ndarray [1] [v]) ->
  leader_row ts = Ok (Reshape ts [1; 1]) /\
  leader_row tv = Ok (Reshape tv [1; 1]) /\
  eval env (Reshape ts [1; 1]) = Some (mk_ndarray [1; 1] [v]) /\
  eval env (Reshape tv [1; 1]) = Some (mk_ndarray [1; 1] [v]) /\
  eval_constraints env (format_axis ts X axis)
  = eval_constraints env (format_axis tv X axis) /\
  ((exists e, format_axis ts X axis = Err e /\ format_axis tv X axis = Err e) \/
   (exists x_rows P s1 s,
      format_axis ts X axis
      = Ok [Geq (Sum [Multiply (SparseConstant (leader_csc (1 + x_rows)) [1 + x_rows; 1])
                               (Reshape ts [1; 1]) s1; P] s)] /\
      format_axis tv X axis
      = Ok [Geq (Sum [Multiply (SparseConstant (leader_csc (1 + x_rows)) [1 + x_rows; 1])
                               (Reshape tv [1; 1]) s1; P] s)])) /\
  (forall n, 0 <= n ->
     shape (if axis =? 1 then lu.transpose X else X) = [n; 1] ->
     exists P,
       format_axis ts X axis
       = Ok [Geq (Sum [Multiply (SparseConstant (leader_csc (1 + n)) [1 + n; 1])
                                (Reshape ts [1; 1]) [1 + n; 1]; P] [1 + n; 1])] /\
       format_axis tv X axis
       = Ok [Geq (Sum [Multiply (SparseConstant (leader_csc (1 + n)) [1 + n; 1])
                                (Reshape tv [1; 1]) [1 + n; 1]; P] [1 + n; 1])]).
Proof.
  intros Hs Hv Es Ev.
  assert (Ls : leader_row ts = Ok (Reshape ts [1; 1])).
  { unfold leader_row, lu.reshape. rewrite Hs. reflexivity. }
  assert (Lv : leader_row tv = Ok (Reshape tv [1; 1])).
  { unfold leader_row, lu.reshape. rewrite Hv. reflexivity. }
  assert (Rs : eval env (Reshape ts [1; 1]) = Some (mk_ndarray [1; 1] [v])).
  { cbn [eval]. rewrite Es. reflexivity. }
  assert (Rv : eval env (Reshape tv [1; 1]) = Some (mk_ndarray [1; 1] [v])).
  { cbn [eval]. rewrite Ev. reflexivity. }
  split; [exact Ls|]. split; [exact Lv|]. split; [exact Rs|]. split; [exact Rv|].
  split; [|split].
  - apply (format_axis_leader_congr env ts tv X axis _ _ Ls Lv); [reflexivity|].
    now rewrite Rs, Rv.
  - apply (format_axis_leader_struct ts tv X axis _ _ Ls Lv). reflexivity.
  - intros n Hn HX. eexists. split.
    + apply (format_axis_returns ts X (Reshape ts [1; 1]) axis 1 n HX Hn Ls). reflexivity.
    + apply (format_axis_returns tv X (Reshape tv [1; 1]) axis 1 n HX Hn Lv). reflexivity.
Qed.

Lemma format_axis_scalar_leader_witness :
  exists P,
    format_axis (Var 0 []) (Var 1 [2; 1]) 0
    = Ok [Geq (Sum [Multiply (SparseConstant (leader_csc (1 + 2)) [1 + 2; 1])
                             (Reshape (Var 0 []) [1; 1]) [1 + 2; 1]; P] [1 + 2; 1])] /\
    format_axis (Var 2 [1]) (Var 1 [2; 1]) 0
    = Ok [Geq (Sum [Multiply (SparseConstant (leader_csc (1 + 2)) [1 + 2; 1])
                             (Reshape (Var 2 [1]) [1; 1]) [1 + 2; 1]; P] [1 + 2; 1])].
Proof.
  apply (format_axis_scalar_leader
           (env_of [(0, mk_ndarray [] [5]); (2, mk_ndarray [1] [5]);
                    (1, mk_ndarray [2; 1] [3; 4])])
           (Var 0 []) (Var 2 [1]) (Var 1 [2; 1]) 0 5); try reflexivity. lia.
Defined.
